(** * icloud-photos-sync: MFA method, error handler, library lock and app
      entry points, embedded shallowly and checked against the specification.

    Conventions of the embedding:
    - a JavaScript number that is used as an integer (HTTP status, phone
      number id, process id) is a [Z]; its decimal rendering in a template
      literal is stdpp's [pretty];
    - the file system below the data dir, and [process.env], are finite maps
      from strings to strings ([gmap string string]);
    - a JavaScript array of strings that may be written past its end is a
      list of optional strings, [None] being a hole;
    - a function that may throw returns a [Result]; a function with effects
      on an emitter, a response or the process returns the list of effects
      in program order. *)

From stdpp Require Import base option list strings pretty gmap fin_maps.

Set Warnings "-register-all,-clear-no-such-hyp".
Open Scope string_scope.

(** ** Errors (app/error-types, app/error/types) *)

(** Modelled from the spec: the severity type of [iCPSError] is declared in a
    file that is not part of the sources at hand; the spec (section 7) names
    three severities. *)
Inductive Severity := WARN | FATAL | INTERRUPT.

#[global] Instance Severity_eq_dec : EqDecision Severity.
Proof. solve_decision. Defined.

(** The error classes that the modelled code constructs or tests with
    [instanceof]. [ForeignError] stands for any value thrown by a
    collaborator that is none of them. *)
Inductive ErrorClass :=
  | LibraryErrorC | iCloudErrorC | iCloudWarningC | SyncErrorC | ArchiveErrorC
  | TokenErrorC | MFAWarningC | InterruptErrorC | ForeignError.

#[global] Instance ErrorClass_eq_dec : EqDecision ErrorClass.
Proof. solve_decision. Defined.

(** A value stored with [addContext]: a string, or an object that is kept
    by reference and not rendered. *)
Inductive ContextValue := CtxStr (s : string) | CtxObj.

(** An error carries its class, its message, the cause attached with
    [addCause] and the context entries attached with [addContext]. *)
Inductive iCPSError :=
  mkError (cls : ErrorClass) (sev : Severity) (msg : string)
          (cause : option iCPSError) (context : list (string * ContextValue)).

Definition err_cls (e : iCPSError) : ErrorClass :=
  match e with mkError c _ _ _ _ => c end.
Definition err_sev (e : iCPSError) : Severity :=
  match e with mkError _ s _ _ _ => s end.
Definition err_msg (e : iCPSError) : string :=
  match e with mkError _ _ m _ _ => m end.
Definition err_cause (e : iCPSError) : option iCPSError :=
  match e with mkError _ _ _ c _ => c end.
Definition err_context (e : iCPSError) : list (string * ContextValue) :=
  match e with mkError _ _ _ _ x => x end.

Definition addCause (e cause : iCPSError) : iCPSError :=
  match e with mkError c s m _ x => mkError c s m (Some cause) x end.
Definition addContext (e : iCPSError) (k : string) (v : ContextValue) : iCPSError :=
  match e with mkError c s m ca x => mkError c s m ca (x ++ [(k, v)]) end.

(** Modelled from the spec: the error classes below are declared in
    app/error-types, which is not part of the sources at hand. Their names
    and the way they are constructed are those of the callers; their
    severities follow section 7 of the spec: a lock conflict is fatal. *)
Definition LibraryError (m : string) := mkError LibraryErrorC FATAL m None [].
(** Modelled from the spec: declared in app/error-types; an error of the
    authentication is fatal (section 7). *)
Definition iCloudError (m : string) := mkError iCloudErrorC FATAL m None [].
(** Modelled from the spec: declared in app/error-types; sections 4.A and 7
    make the failures of a resend warnings, which continue. *)
Definition iCloudWarning (m : string) := mkError iCloudWarningC WARN m None [].
(** Modelled from the spec: declared in app/error-types; a failed sync
    aborts the operation (section 7). *)
Definition SyncError (m : string) := mkError SyncErrorC FATAL m None [].
(** Modelled from the spec: declared in app/error-types; a failed archive
    run aborts the operation (section 7). *)
Definition ArchiveError (m : string) := mkError ArchiveErrorC FATAL m None [].
(** Modelled from the spec: declared in app/error-types; section 4.B makes
    the complaints of the MFA endpoint warnings. *)
Definition MFAWarning (m : string) := mkError MFAWarningC WARN m None [].
(** Modelled from the spec: the class [InterruptError] is declared in a file
    that is not part of the sources at hand; the spec (section 7) makes a
    signal-delivered interrupt fatal. *)
Definition InterruptError (m : string) := mkError InterruptErrorC FATAL m None [].

(** Outcome of a call that may throw. *)
Inductive Result (A : Type) :=
  | Ok (a : A)
  | Throw (e : iCPSError).
Arguments Ok {A} a.
Arguments Throw {A} e.

(** ** lib/icloud/mfa/mfa-method.ts *)

Module MFA.

Inductive MFAMethodType := DEVICE | SMS | VOICE.

#[global] Instance MFAMethodType_eq_dec : EqDecision MFAMethodType.
Proof. solve_decision. Defined.

(** The numeric value of the enum, as declared. *)
Definition MFAMethodType_value (t : MFAMethodType) : Z :=
  match t with DEVICE => 1 | SMS => 2 | VOICE => 3 end%Z.

(** [numberId] is [undefined] ([None]) for the device method. *)
Record MFAMethod := { type : MFAMethodType; numberId : option Z }.

(** [update(mfaMethod, numberId)]: any string other than [sms] and [voice]
    selects the device method. *)
Definition update (mfaMethod : string) (numberId : Z) : MFAMethod :=
  if String.eqb mfaMethod "sms" then {| type := SMS; numberId := Some numberId |}
  else if String.eqb mfaMethod "voice" then {| type := VOICE; numberId := Some numberId |}
  else {| type := DEVICE; numberId := None |}.

(** The constructor, with its defaults [device] and [1]. *)
Definition new_MFAMethod (mfaMethod : option string) (numberId : option Z) : MFAMethod :=
  update (default "device" mfaMethod) (default 1%Z numberId).

Definition isDevice (m : MFAMethod) : bool := bool_decide (type m = DEVICE).
Definition isSMS (m : MFAMethod) : bool := bool_decide (type m = SMS).
Definition isVoice (m : MFAMethod) : bool := bool_decide (type m = VOICE).

(** Rendering of an optional number inside a template literal. *)
Definition show_number (n : option Z) : string :=
  match n with Some z => pretty z | None => "undefined" end.

Definition toString (m : MFAMethod) : string :=
  match type m with
  | SMS => "'SMS' (Number ID: " ++ show_number (numberId m) ++ ")"
  | VOICE => "'Voice' (Number ID: " ++ show_number (numberId m) ++ ")"
  | DEVICE => "'Device'"
  end.

(** The part of an Axios response that the method inspects. *)
Record AxiosResponse := { status : Z }.

Definition resendSuccessful (m : MFAMethod) (res : AxiosResponse) : bool :=
  match type m with
  | VOICE | SMS => bool_decide (status res = 200%Z)
  | DEVICE => bool_decide (status res = 202%Z)
  end.

Definition enterSuccessful (m : MFAMethod) (res : AxiosResponse) : bool :=
  match type m with
  | VOICE | SMS => bool_decide (status res = 200%Z)
  | DEVICE => bool_decide (status res = 204%Z)
  end.

(** An entry of [trustedPhoneNumbers]. *)
Record TrustedPhoneNumber := { id : Z; numberWithDialCode : string }.

(** The value found under [data.trustedPhoneNumbers]: missing (or falsy),
    something that is not an array, or an array of entries. *)
Inductive TrustedPhones :=
  | PhonesMissing
  | PhonesNotArray
  | PhonesArray (l : list TrustedPhoneNumber).

(** [err.response.data], when it is truthy. *)
Record ResponseData := { trustedPhoneNumbers : TrustedPhones }.

Record ErrorResponse := { err_status : Z; data : option ResponseData }.

(** The value handed to [processResendError]. *)
Record ResendFailure := { name : string; response : option ErrorResponse }.

(** [arr.join(sep)] on strings. *)
Fixpoint join (sep : string) (l : list string) : string :=
  match l with
  | [] => ""
  | [x] => x
  | x :: rest => x ++ sep ++ join sep rest
  end.

Definition NL : string := String (Ascii.ascii_of_nat 10) "".

Definition phone_line (p : TrustedPhoneNumber) : string :=
  "- " ++ pretty (id p) ++ ": " ++ numberWithDialCode p.


(** [trustedPhones.some(number => number.id === this.numberId)] *)
Definition some_id (m : MFAMethod) (l : list TrustedPhoneNumber) : bool :=
  existsb (fun p => bool_decide (Some (id p) = numberId m)) l.

(** The cause is the failure itself; it is kept as a foreign error whose
    message is the failure's name. *)
Definition as_cause (err : ResendFailure) : iCPSError :=
  mkError ForeignError FATAL (name err) None [].

(** Truthiness of [err.response]. *)
Definition is_response (err : ResendFailure) : bool :=
  match response err with Some _ => true | None => false end.

Definition processResendError (m : MFAMethod) (err : ResendFailure) : iCPSError :=
  let unknown :=
    addCause (iCloudWarning ("Bad request, unknown cause with method " ++ toString m))
             (as_cause err) in
  let no_response := addCause (iCloudWarning "No response received") (as_cause err) in
  if negb (String.eqb (name err) "AxiosError") || negb (is_response err)
  then no_response
  else
    match response err with
    | None => no_response
    | Some r =>
      if bool_decide (err_status r = 403%Z)
      then addCause (iCloudWarning "Timeout") (as_cause err)
      else if bool_decide (err_status r = 412%Z)
      then
        match data r with
        | None => addCause (iCloudWarning "Bad request, no response data") (as_cause err)
        | Some d =>
          if bool_decide (type m = SMS) || bool_decide (type m = VOICE)
          then
            match trustedPhoneNumbers d with
            | PhonesMissing | PhonesNotArray | PhonesArray [] =>
                addCause (addContext (iCloudWarning "No trusted phone numbers registered")
                                     "response.data" CtxObj)
                         (as_cause err)
            | PhonesArray l =>
                if negb (some_id m l)
                then addCause
                       (addContext
                          (iCloudWarning
                             ("Selected Phone Number ID does not exist." ++ NL
                              ++ "Available numbers:" ++ NL
                              ++ join NL (map phone_line l)))
                          "response.data" CtxObj)
                       (as_cause err)
                else unknown
            end
          else unknown
        end
      else unknown
    end.

(** The input of scenario S3 and of the unit test
    [Phone number ID does not exist]. *)
Definition S3_phones : list TrustedPhoneNumber :=
  [ {| id := 2; numberWithDialCode := "+49-123-456" |};
    {| id := 3; numberWithDialCode := "+49-789-123" |} ].
Definition S3_data : ResponseData := {| trustedPhoneNumbers := PhonesArray S3_phones |}.
Definition S3_response : ErrorResponse := {| err_status := 412; data := Some S3_data |}.
Definition S3_failure : ResendFailure :=
  {| name := "AxiosError"; response := Some S3_response |}.

End MFA.

(** ** A state and exception monad for the code that touches the disk *)

Definition M (S A : Type) : Type := S → Result A * S.

#[global] Instance M_ret {S} : MRet (M S) := λ A a s, (Ok a, s).
#[global] Instance M_bind {S} : MBind (M S) := λ A B f m s,
  match m s with
  | (Ok a, s') => f a s'
  | (Throw e, s') => (Throw e, s')
  end.

Definition throw {S A} (e : iCPSError) : M S A := λ s, (Throw e, s).

(** [try { body } catch (err) { handler err }] *)
Definition try_catch {S A} (body : M S A) (handler : iCPSError → M S A) : M S A :=
  λ s, match body s with
       | (Ok a, s') => (Ok a, s')
       | (Throw e, s') => handler e s'
       end.

(** [try { body } finally { fin }]: the [finally] block runs in every case,
    and an exception it raises replaces the outcome of [body]. *)
Definition try_finally {S A} (body : M S A) (fin : M S ()) : M S A :=
  λ s, match body s with
       | (r, s') =>
         match fin s' with
         | (Ok _, s'') => (r, s'')
         | (Throw e, s'') => (Throw e, s'')
         end
       end.

(** ** app/icloud-app: the library lock *)

Module App.

Record OptionValues := {
  dataDir : string;
  force : bool;
  enableCrashReporting : bool
}.

Definition LIBRARY_LOCK_FILE : string := ".library.lock".

(** [path.join] of a directory and a file name, for a directory path that
    is already normalised and does not end in a separator. *)
Definition path_join (dir file : string) : string := dir ++ "/" ++ file.

Definition lockFilePath (options : OptionValues) : string :=
  path_join (dataDir options) LIBRARY_LOCK_FILE.

(** The files below the data dir, by path, with their content. *)
Abbreviation FS := (gmap string string).

Definition existsSync (p : string) : M FS bool :=
  λ fs, (Ok (bool_decide (is_Some (fs !! p))), fs).

Definition readFile (p : string) : M FS string :=
  λ fs, match fs !! p with
        | Some c => (Ok c, fs)
        | None => (Throw (mkError ForeignError FATAL "ENOENT" None []), fs)
        end.

(** [fs.promises.rm(p, {force: true})] *)
Definition rm_force (p : string) : M FS () := λ fs, (Ok (), delete p fs).

Definition writeFile (p content : string) : M FS () :=
  λ fs, (Ok (), <[p := content]> fs).

Section Lock.
Variable options : OptionValues.
(** [process.pid] *)
Variable pid : Z.

Definition acquireLibraryLock : M FS () :=
  let lockFilePath := lockFilePath options in
  ex ← existsSync lockFilePath;
  (if (ex : bool) then
     (if negb (force options) then
        lockingProcess ← readFile lockFilePath;
        throw (LibraryError ("Locked by PID " ++ lockingProcess
          ++ ". Use --force (or FORCE env variable) to forcefully remove the lock"))
      else mret ());;
     rm_force lockFilePath
   else mret ());;
  writeFile lockFilePath (pretty pid).

Definition releaseLibraryLock : M FS () :=
  let lockFilePath := lockFilePath options in
  ex ← existsSync lockFilePath;
  (if negb ex then
     throw (LibraryError "Unable to release library lock, no lock exists")
   else mret ());;
  lockingProcess ← readFile lockFilePath;
  (if negb (String.eqb lockingProcess (pretty pid)) && negb (force options) then
     throw (LibraryError ("Locked by PID " ++ lockingProcess
       ++ ", cannot release. Use --force (or FORCE env variable) to forcefully remove the lock"))
   else mret ());;
  rm_force lockFilePath.
End Lock.

(** *** The app classes

    The collaborators of the apps (the iCloud connection, the sync engine
    and the archive engine) are parameters: each is a computation on the
    files that may throw. Every call that an app makes is recorded, with its
    outcome, in the order in which it happens. *)

(** The class an app object was created from ([this.constructor.name]). *)
Inductive AppClass := TokenAppC | SyncAppC | ArchiveAppC.

#[global] Instance AppClass_eq_dec : EqDecision AppClass.
Proof. solve_decision. Defined.

Section Apps.
Variables Asset Album : Type.

Inductive Call :=
  | CRegisterHandlers
  | CRemoveHandlers
  | CAcquireLibraryLock (r : Result ())
  | CReleaseLibraryLock (r : Result ())
  | CAuthenticate (r : Result ())
  | CSync (r : Result (list Asset * list Album))
  | CArchivePath (path : string) (remoteAssets : list Asset) (r : Result ()).

Record World := { files : FS; calls : list Call }.

(** Runs [m] on the files and records the call with its outcome. *)
Definition logged {A} (mk : Result A → Call) (m : M FS A) : M World A :=
  λ w, match m (files w) with
       | (r, fs) => (r, {| files := fs; calls := calls w ++ [mk r] |})
       end.

Definition note (c : Call) : M World () :=
  λ w, (Ok (), {| files := files w; calls := calls w ++ [c] |}).

Variable options : OptionValues.
Variable pid : Z.
(** [this.icloud.authenticate()] *)
Variable authenticate : M FS ().
(** [this.syncEngine.sync()] *)
Variable sync : M FS (list Asset * list Album).
(** [this.archiveEngine.archivePath(path, remoteAssets)] *)
Variable archivePath : string → list Asset → M FS ().

Definition iCloudApp_run : M World () :=
  note CRegisterHandlers;;
  try_catch (logged CAcquireLibraryLock (acquireLibraryLock options pid))
    (λ err, throw (addCause (LibraryError "Unable to acquire lock") err));;
  try_catch (logged CAuthenticate authenticate)
    (λ err, throw (addCause (iCloudError "Authentication failed") err)).

Definition iCloudApp_clean : M World () :=
  note CRemoveHandlers;;
  logged CReleaseLibraryLock (releaseLibraryLock options pid).

Definition SyncApp_clean : M World () :=
  iCloudApp_clean;;
  note CRemoveHandlers.

Definition ArchiveApp_clean : M World () :=
  SyncApp_clean;;
  note CRemoveHandlers.

(** [this.clean()], dispatched on the class of the object. *)
Definition clean (self : AppClass) : M World () :=
  match self with
  | TokenAppC => iCloudApp_clean
  | SyncAppC => SyncApp_clean
  | ArchiveAppC => ArchiveApp_clean
  end.

Definition SyncApp_run (self : AppClass) : M World (list Asset * list Album) :=
  note CRegisterHandlers;;
  try_finally
    (try_catch
       (iCloudApp_run;; logged CSync sync)
       (λ err, throw (addCause (SyncError "Sync failed") err)))
    (if bool_decide (self = SyncAppC) then clean self else mret ()).

Definition ArchiveApp_run (self : AppClass) (path : string) : M World () :=
  note CRegisterHandlers;;
  try_finally
    (try_catch
       (res ← SyncApp_run self;
        let remoteAssets := fst res in
        logged (CArchivePath path remoteAssets) (archivePath path remoteAssets))
       (λ err, throw (addContext (addCause (ArchiveError "Archive failed") err)
                                 "archivePath" (CtxStr path))))
    (if bool_decide (self = ArchiveAppC) then clean self else mret ()).
End Apps.

Arguments CRegisterHandlers {Asset Album}.
Arguments CRemoveHandlers {Asset Album}.
Arguments CAcquireLibraryLock {Asset Album} r.
Arguments CReleaseLibraryLock {Asset Album} r.
Arguments CAuthenticate {Asset Album} r.
Arguments CSync {Asset Album} r.
Arguments CArchivePath {Asset Album} path remoteAssets r.
Arguments files {Asset Album} w.
Arguments calls {Asset Album} w.
Arguments Build_World {Asset Album} files calls.

(** The errors that the [run] methods throw for the cause [e]. *)
Definition archive_failed (path : string) (e : iCPSError) : iCPSError :=
  addContext (addCause (ArchiveError "Archive failed") e) "archivePath" (CtxStr path).

Definition sync_failed (e : iCPSError) : iCPSError :=
  addCause (SyncError "Sync failed") e.

Definition authentication_failed (e : iCPSError) : iCPSError :=
  addCause (iCloudError "Authentication failed") e.

End App.

(** ** app/error/handler: the error handler *)

Module Handler.

Definition HANDLER_EVENT : string := "error-handler".
Definition ERROR_EVENT : string := "error".
Definition WARN_EVENT : string := "warn".

(** What [handle] does to the outside, in program order. [Emit] is a call
    of [this.emit] that returned: the listeners of the event, if any, were
    called. *)
Inductive Effect :=
  | Emit (event message : string)
  | LogWarn (message : string)
  | LogError (message : string)
  | SendReport (err : iCPSError) (uuid : string)
  | ProcessExit (code : Z).

(** The handler is an [EventEmitter]: it has the events for which a
    listener was registered with [on], one entry per listener. The
    reporting client is present iff crash reporting was enabled when the
    handler was constructed. *)
Record ErrorHandler := { btClient : option (); listeners : list string }.

(** The constructor registers no listener on the handler itself (the
    signal handlers go to [process]). *)
Definition new_ErrorHandler (options : App.OptionValues) : ErrorHandler :=
  {| btClient := if App.enableCrashReporting options then Some () else None;
     listeners := [] |}.

(** [emitter.on(event, listener)] *)
Definition on (event : string) (h : ErrorHandler) : ErrorHandler :=
  {| btClient := btClient h; listeners := event :: listeners h |}.

(** [emitter.listenerCount(event) > 0] *)
Definition has_listener (h : ErrorHandler) (event : string) : bool :=
  existsb (String.eqb event) (listeners h).

(** What [emit] throws for an [error] event that nobody listens to, when
    the argument is a string. *)
Definition unhandled (message : string) : iCPSError :=
  mkError ForeignError FATAL ("Unhandled error. ('" ++ message ++ "')") None [].

Definition tell (e : Effect) : M (list Effect) () := λ s, (Ok (), (s ++ [e])%list).

(** The outcome of a call made for its result only. *)
Definition outcome {S A} (r : Result A) : M S A := λ s, (r, s).

(** [this.emit(event, message)]: an [EventEmitter] throws when the event
    [error] is emitted and no listener is registered for it; every other
    emission returns. *)
Definition emit (h : ErrorHandler) (event message : string) : M (list Effect) () :=
  if String.eqb event "error" && negb (has_listener h event)
  then throw (unhandled message)
  else tell (Emit event message).

Section Handle.
(** [err.getDescription()], declared with the error types. *)
Variable getDescription : iCPSError → string.
(** The value that [randomUUID()] returns in this call. *)
Variable randomUUID : string.
(** How [this.btClient.sendAsync(report)] ends in this call. *)
Variable sendAsync : Result ().

(** Returns the error code. *)
Definition reportError (h : ErrorHandler) (err : iCPSError) : M (list Effect) string :=
  match btClient h with
  | None => mret "No error code! Pelase enable crash reporting!"
  | Some _ =>
    tell (SendReport err randomUUID);;
    outcome sendAsync;;
    mret randomUUID
  end.

Definition handle (h : ErrorHandler) (err : iCPSError) : M (list Effect) () :=
  let message := getDescription err in
  let shouldReport :=
    bool_decide (err_sev err = FATAL) && negb (bool_decide (err_cls err = InterruptErrorC)) in
  let shouldExit := bool_decide (err_sev err = FATAL) in
  message ← (if shouldReport then
               errorId ← reportError h err;
               mret (message ++ " (Error Code: " ++ errorId ++ ")")
             else mret message);
  match err_sev err with
  | WARN => emit h WARN_EVENT message;; tell (LogWarn message)
  | _ => emit h ERROR_EVENT message;; tell (LogError message)
  end;;
  (if shouldExit then tell (ProcessExit 1) else mret ()).
End Handle.

(** [CLIInterface.setupCLIErrorHandlerInterface] (lib/cli.ts): the command
    line interface listens to the [error] event, and to the [warn] event
    unless warnings are suppressed. *)
Definition setupCLIErrorHandlerInterface (surpressWarnings : bool) (h : ErrorHandler)
  : ErrorHandler :=
  let h := on ERROR_EVENT h in
  if negb surpressWarnings then on WARN_EVENT h else h.

Definition is_emit (e : Effect) : bool :=
  match e with Emit _ _ => true | _ => false end.

(** *** [cleanEnv] *)

(** [process.env], [process.argv] and [process.execArgv]. *)
Record Process := {
  env : gmap string string;
  argv : list (option string);
  execArgv : list (option string)
}.

Record ConfidentialEntry := {
  c_env : string;
  cli : list string;
  replacement : string
}.

(** The values of [confidentialData], in the order of its keys. *)
Definition confidentialData : list ConfidentialEntry :=
  [ {| c_env := "APPLE_ID_USER"; cli := ["-u"; "--username"];
       replacement := "<APPLE ID USERNAME>" |};
    {| c_env := "APPLE_ID_PWD"; cli := ["-p"; "--password"];
       replacement := "<APPLE ID PASSWORD>" |};
    {| c_env := "TRUST_TOKEN"; cli := ["-T"; "--trust-token"];
       replacement := "<TRUST TOKEN>" |} ].

(** [arr.findIndex(value => value === x)]: the first index, or [-1]. *)
Fixpoint findIndex (x : string) (arr : list (option string)) : Z :=
  match arr with
  | [] => (-1)%Z
  | v :: rest =>
    if bool_decide (v = Some x) then 0%Z
    else let i := findIndex x rest in
         if bool_decide (i = (-1)%Z) then (-1)%Z else (i + 1)%Z
  end.

(** [arr[i] = v] for [0 <= i]: in range it overwrites, at or past the end
    it extends the array, leaving holes in between. *)
Definition array_set (arr : list (option string)) (i : Z) (v : string)
  : list (option string) :=
  let n := Z.to_nat i in
  if bool_decide (n < length arr)%nat then <[n := Some v]> arr
  else arr ++ replicate (n - length arr) None ++ [Some v].

(** Truthiness of [process.env[k]]: set, and not the empty string. *)
Definition env_truthy (v : option string) : bool :=
  match v with
  | Some s => negb (String.eqb s "")
  | None => false
  end.

Definition set_env (p : Process) (e : gmap string string) : Process :=
  {| env := e; argv := argv p; execArgv := execArgv p |}.
Definition set_argv (p : Process) (a : list (option string)) : Process :=
  {| env := env p; argv := a; execArgv := execArgv p |}.

(** The body of the inner loop, for one spelling of a flag. *)
Definition clean_cli (entry : ConfidentialEntry) (p : Process) (flag : string) : Process :=
  let confidentalCliValueIndexArgV := findIndex flag (argv p) in
  let p :=
    if negb (bool_decide (confidentalCliValueIndexArgV = (-1)%Z))
    then set_argv p (array_set (argv p) (confidentalCliValueIndexArgV + 1) (replacement entry))
    else p in
  let confidentalCliValueIndexExecArgV := findIndex flag (execArgv p) in
  if negb (bool_decide (confidentalCliValueIndexExecArgV = (-1)%Z))
  then set_argv p (array_set (argv p) (confidentalCliValueIndexExecArgV + 1) (replacement entry))
  else p.

(** The body of the outer loop, for one entry. *)
Definition clean_entry (p : Process) (entry : ConfidentialEntry) : Process :=
  let p :=
    if env_truthy (env p !! c_env entry)
    then set_env p (<[c_env entry := replacement entry]> (env p))
    else p in
  foldl (clean_cli entry) p (cli entry).

Definition cleanEnv (p : Process) : Process :=
  foldl clean_entry p confidentialData.

End Handler.

(** ** lib/icloud/mfa/mfa-server: the MFA endpoint *)

Module Server.

(** The double quote character. *)
Definition DQ : string := String (Ascii.ascii_of_nat 34) "".

(** The endpoint paths, as the server prints them in its 404 message. *)
Definition CODE_INPUT : string := "/mfa".
Definition RESEND_CODE : string := "/resend_mfa".
Definition ENDPOINT : list string := [CODE_INPUT; RESEND_CODE].

(** [JSON.stringify] of an array of plain strings. *)
Definition stringify (l : list string) : string :=
  "[" ++ MFA.join "," (map (λ s, DQ ++ s ++ DQ) l) ++ "]".

Record IncomingMessage := { url : string; method : string }.

(** What a handler does to the response and to the listeners of the
    server. *)
Inductive Effect :=
  | SendResponse (code : Z) (message : string)
  | EmitMFAReceived (m : MFA.MFAMethod) (code : string)
  | EmitHandlerEvent (err : iCPSError).

Definition is_digit (a : Ascii.ascii) : bool :=
  let n := Ascii.nat_of_ascii a in (48 <=? n)%nat && (n <=? 57)%nat.

(** Exactly six decimal digits. *)
Definition six_digits (code : string) : bool :=
  bool_decide (String.length code = 6%nat)
  && forallb is_digit (String.list_ascii_of_string code).

(** [strip_prefix p s] is the rest of [s] after [p], when [s] starts with [p]. *)
Fixpoint strip_prefix (p s : string) : option string :=
  match p, s with
  | EmptyString, _ => Some s
  | String a p', String b s' =>
    if Ascii.eqb a b then strip_prefix p' s' else None
  | String _ _, EmptyString => None
  end.

(** The value of the [code] parameter of a request to the code endpoint. *)
Definition code_of_url (u : string) : option string :=
  strip_prefix (CODE_INPUT ++ "?code=") u.

(** Modelled from the spec: the class [MFAServer] (lib/icloud/mfa/mfa-server)
    is not part of the sources at hand, only its unit tests are. Section 4.B:
    the code route validates that the code is exactly six decimal digits; on
    success it emits [MFA_RECEIVED(method, code)] and replies 200 with a
    confirmation message; on malformed input it replies 400 and emits a
    warning. The texts are those of scenarios S1 and S2 and of the tests. *)
Definition handleMFACode (mfaMethod : MFA.MFAMethod) (req : IncomingMessage) : list Effect :=
  match code_of_url (url req) with
  | Some code =>
    if six_digits code
    then [SendResponse 200 ("Read MFA code: " ++ code); EmitMFAReceived mfaMethod code]
    else [EmitHandlerEvent (MFAWarning "Received unexpected MFA code format, expecting 6 digits");
          SendResponse 400 "Unexpected MFA code format! Expecting 6 digits"]
  | None =>
    [EmitHandlerEvent (MFAWarning "Received unexpected MFA code format, expecting 6 digits");
     SendResponse 400 "Unexpected MFA code format! Expecting 6 digits"]
  end.

(** Whether an effect is an [MFA_RECEIVED] event. *)
Definition is_received (e : Effect) : bool :=
  match e with EmitMFAReceived _ _ => true | _ => false end.

(** Whether an effect is a warning handed to the error handler. *)
Definition is_warning (e : Effect) : bool :=
  match e with
  | EmitHandlerEvent err => bool_decide (err_sev err = WARN)
  | _ => false
  end.

(** What the router does with a request: it answers itself, or it hands the
    request to one of the two handlers. *)
Inductive Routed :=
  | Answered (effects : list Effect)
  | ToHandleMFACode
  | ToHandleMFAResend.

Section Router.
(** [PACKAGE.NAME] and [PACKAGE.VERSION] *)
Variables NAME VERSION : string.

(** Modelled from the spec: the class [MFAServer] is not part of the
    sources at hand, only its unit tests are. Section 4.B: [GET /] returns
    200 with a one-line identity banner; [POST] to the code route and to
    the resend route go to their handlers; anything else: [GET] with
    unknown route gives 400 with "method not supported", [POST] to unknown
    route gives 404 with the list of known endpoints, and both emit
    warnings. The texts are those of the tests; a method other than [GET]
    and [POST] is answered like a [GET], as the text of the warning
    suggests. *)
Definition handleRequest (req : IncomingMessage) : Routed :=
  if String.eqb (method req) "GET" && String.eqb (url req) "/" then
    Answered [SendResponse 200
      ("MFA Server up & running - " ++ NAME ++ "@v" ++ VERSION)]
  else if negb (String.eqb (method req) "POST") then
    Answered
      [EmitHandlerEvent (MFAWarning ("Received unknown method to endpoint "
                                     ++ url req ++ ": " ++ method req));
       SendResponse 400 ("Method not supported: " ++ method req)]
  else if String.prefix CODE_INPUT (url req) then ToHandleMFACode
  else if String.prefix RESEND_CODE (url req) then ToHandleMFAResend
  else
    Answered
      [EmitHandlerEvent (MFAWarning ("Received request to unknown endpoint " ++ url req));
       SendResponse 404 ("Route not found, available endpoints: " ++ stringify ENDPOINT)].
End Router.

End Server.

(** ** lib/icloud/mfa/mfa-method.ts: URLs and payloads *)

Module MFARequests.
Import MFA.

(** The object under the key [phoneNumber] together with the [mode]. *)
Record PhonePayload := { phoneNumber_id : option Z; mode : string }.

(** The payload of a resend request; [undefined] for the device method. *)
Definition getResendPayload (m : MFAMethod) : option PhonePayload :=
  match type m with
  | VOICE => Some {| phoneNumber_id := numberId m; mode := "voice" |}
  | SMS => Some {| phoneNumber_id := numberId m; mode := "sms" |}
  | DEVICE => None
  end.

(** The payload for entering a code: the security code, and for the phone
    methods the phone number and the mode. *)
Record EnterPayload := { securityCode_code : string; phone : option PhonePayload }.

Definition getEnterPayload (m : MFAMethod) (mfa : string) : EnterPayload :=
  match type m with
  | VOICE => {| securityCode_code := mfa;
                phone := Some {| phoneNumber_id := numberId m; mode := "voice" |} |}
  | SMS => {| securityCode_code := mfa;
              phone := Some {| phoneNumber_id := numberId m; mode := "sms" |} |}
  | DEVICE => {| securityCode_code := mfa; phone := None |}
  end.

Section URLs.
(** [ICLOUD.URL.MFA_DEVICE], [MFA_PHONE], [MFA_DEVICE_ENTER] and
    [MFA_PHONE_ENTER], declared in lib/icloud/constants. *)
Variables MFA_DEVICE MFA_PHONE MFA_DEVICE_ENTER MFA_PHONE_ENTER : string.

Definition getResendURL (m : MFAMethod) : string :=
  match type m with
  | VOICE | SMS => MFA_PHONE
  | DEVICE => MFA_DEVICE
  end.

Definition getEnterURL (m : MFAMethod) : string :=
  match type m with
  | VOICE | SMS => MFA_PHONE_ENTER
  | DEVICE => MFA_DEVICE_ENTER
  end.
End URLs.

(** The methods that [update] (and so the constructor) can produce. *)
Definition updated (m : MFAMethod) : Prop :=
  ∃ (mfaMethod : string) (n : Z), m = update mfaMethod n.

End MFARequests.

(** ** app/icloud-app: the token app and the daemon app *)

Module Apps2.
Import App.

Section TokenDaemon.
Variables Asset Album : Type.

(** What the token app and the daemon app do beyond the calls of the
    classes they build on. *)
Inductive XCall :=
  | Base (c : Call Asset Album)
  | CValidateAccountTokens (r : Result ())
  | CEmitToken (trustToken : string)
  | CEmitDone (next : option string)
  | CEmitRetry (next : option string)
  | CEmitDaemonAppError (err : iCPSError).

Record XWorld := { xfiles : FS; xcalls : list XCall }.

(** Runs a computation of the base classes; its calls are appended in
    order. *)
Definition lift {A} (m : M (World Asset Album) A) : M XWorld A :=
  λ xw, match m {| files := xfiles xw; calls := [] |} with
        | (r, w) => (r, {| xfiles := files w;
                           xcalls := (xcalls xw ++ map Base (calls w))%list |})
        end.

Definition xlogged {A} (mk : Result A → XCall) (m : M FS A) : M XWorld A :=
  λ xw, match m (xfiles xw) with
        | (r, fs) => (r, {| xfiles := fs; xcalls := (xcalls xw ++ [mk r])%list |})
        end.

Definition xnote (c : XCall) : M XWorld () :=
  λ xw, (Ok (), {| xfiles := xfiles xw; xcalls := (xcalls xw ++ [c])%list |}).

Variable options : OptionValues.
Variable pid : Z.
Variable authenticate : M FS ().
Variable sync : M FS (list Asset * list Album).
(** [this.icloud.auth.validateAccountTokens()] *)
Variable validateAccountTokens : M FS ().
(** [this.icloud.auth.iCloudAccountTokens.trustToken] *)
Variable trustToken : string.
(** The value of [this.job?.next()] *)
Variable next : option string.

Definition TokenApp_run (self : AppClass) : M XWorld () :=
  try_finally
    (try_catch
       (lift (iCloudApp_run Asset Album options pid authenticate);;
        xlogged CValidateAccountTokens validateAccountTokens;;
        xnote (CEmitToken trustToken))
       (λ err, throw (addCause (mkError TokenErrorC FATAL "Unable to get trust token" None [])
                               err)))
    (if bool_decide (self = TokenAppC)
     then lift (clean Asset Album options pid self)
     else mret ()).

(** [performScheduledSync], for a freshly created sync app. The error
    handed to the handler is the [DaemonAppError] made from the caught one. *)
Definition performScheduledSync : M XWorld () :=
  try_catch
    (lift (SyncApp_run Asset Album options pid authenticate sync SyncAppC);;
     xnote (CEmitDone next))
    (λ err, xnote (CEmitDaemonAppError err);; xnote (CEmitRetry next)).
End TokenDaemon.

Arguments Base {Asset Album} c.
Arguments CValidateAccountTokens {Asset Album} r.
Arguments CEmitToken {Asset Album} trustToken.
Arguments CEmitDone {Asset Album} next.
Arguments CEmitRetry {Asset Album} next.
Arguments CEmitDaemonAppError {Asset Album} err.
Arguments xfiles {Asset Album} x.
Arguments xcalls {Asset Album} x.
Arguments Build_XWorld {Asset Album} xfiles xcalls.

(** The error that [TokenApp.run] throws for the cause [e]. *)
Definition token_failed (e : iCPSError) : iCPSError :=
  addCause (mkError TokenErrorC FATAL "Unable to get trust token" None []) e.

(** The calls to a collaborator among the calls of a run. *)
Definition is_collaborator {Asset Album} (c : Call Asset Album) : bool :=
  match c with
  | CAuthenticate _ | CSync _ | CArchivePath _ _ _ => true
  | _ => false
  end.

Definition is_release {Asset Album} (c : Call Asset Album) : bool :=
  match c with CReleaseLibraryLock _ => true | _ => false end.

Definition is_token {Asset Album} (c : XCall Asset Album) : bool :=
  match c with CEmitToken _ => true | _ => false end.

End Apps2.

(** ** Scrubbing: what [cleanEnv] writes *)

Module Scrub.
Import Handler.

(** One of the three placeholders. *)
Definition placeholder (v : string) : Prop :=
  ∃ e, e ∈ confidentialData ∧ v = replacement e.

(** An array slot that holds a placeholder. *)
Definition scrubbed (slot : option (option string)) : Prop :=
  ∃ v, placeholder v ∧ slot = Some (Some v).

(** One of the six spellings of a credential flag. *)
Definition credential_flag (f : string) : Prop :=
  ∃ e, e ∈ confidentialData ∧ f ∈ cli e.

(** [s] is the array [a] after some writes of placeholders: it is at least
    as long, and every slot is as in [a], holds a placeholder, or is a hole
    past the end of [a]. *)
Definition overwritten (a s : list (option string)) : Prop :=
  (length a ≤ length s)%nat
  ∧ ∀ j, s !! j = a !! j ∨ scrubbed (s !! j)
         ∨ ((length a ≤ j)%nat ∧ s !! j = Some None).


End Scrub.

(** ** Concrete inputs used below *)

Module Inputs.
Import App.

Definition plain_options : OptionValues :=
  {| dataDir := "/opt/icloud-photos-library"; force := false; enableCrashReporting := false |}.
Definition forced_options : OptionValues :=
  {| dataDir := "/opt/icloud-photos-library"; force := true; enableCrashReporting := false |}.
Definition reporting_options : OptionValues :=
  {| dataDir := "/opt/icloud-photos-library"; force := false; enableCrashReporting := true |}.

(** The lock file, written by this process (PID 77) and by another one
    (PID 4242). *)
Definition own_lock : FS := {[ lockFilePath plain_options := "77" ]}.
Definition foreign_lock : FS := {[ lockFilePath plain_options := "4242" ]}.

(** Collaborators that succeed; the sync writes an asset and returns one
    remote asset and one album. *)
Definition authenticate_ok : M FS () := mret ().
Definition sync_ok : M FS (list string * list string) :=
  λ fs, (Ok (["AQIDBAUGBwgJ"], ["Holidays"]),
         <["/opt/icloud-photos-library/_All-Photos/AQIDBAUGBwgJ.jpeg" := "bytes"]> fs).
Definition archivePath_ok (path : string) (remoteAssets : list string) : M FS () :=
  mret ().

Definition archive_path : string := "/opt/icloud-photos-library/Holidays".

(** A run that starts on an empty data dir, and one that starts while
    another process holds the lock. *)
Definition fresh_world : World string string := {| files := ∅; calls := [] |}.
Definition locked_world : World string string := {| files := foreign_lock; calls := [] |}.

(** A library with one asset and no lock. *)
Definition library : FS :=
  {[ "/opt/icloud-photos-library/_All-Photos/AQIDBAUGBwgJ.jpeg" := "bytes" ]}.

(** A run that finds a lock file with its own PID, left by an earlier
    process. *)
Definition stale_world : World string string := {| files := own_lock; calls := [] |}.

(** A sync engine that fails. *)
Definition sync_failing : M FS (list string * list string) :=
  throw (mkError ForeignError FATAL "socket hang up" None []).

Definition fresh_xworld : Apps2.XWorld string string :=
  {| Apps2.xfiles := ∅; Apps2.xcalls := [] |}.

(** A process started with the password in [execArgv]. *)
Definition exec_password : Handler.Process :=
  {| Handler.env := ∅;
     Handler.argv := [Some "/usr/local/bin/node"; Some "/usr/local/bin/icloud-photos-sync";
                      Some "sync"];
     Handler.execArgv := [Some "-p"; Some "hunter2"] |}.

(** A process started with the password flag given twice. *)
Definition twice_password : Handler.Process :=
  {| Handler.env := ∅;
     Handler.argv := [Some "/usr/local/bin/node"; Some "/usr/local/bin/icloud-photos-sync";
                      Some "sync"; Some "-p"; Some "first"; Some "-p"; Some "hunter2"];
     Handler.execArgv := [] |}.

(** A process started without any credential flag. *)
Definition no_flags : Handler.Process :=
  {| Handler.env := {[ "HOME" := "/root" ]};
     Handler.argv := [Some "/usr/local/bin/node"; Some "/usr/local/bin/icloud-photos-sync";
                      Some "sync"];
     Handler.execArgv := [] |}.

(** A process started with the password in the environment. *)
Definition env_password : Handler.Process :=
  {| Handler.env := {[ "APPLE_ID_PWD" := "hunter2" ]};
     Handler.argv := [Some "/usr/local/bin/node"; Some "/usr/local/bin/icloud-photos-sync";
                      Some "sync"];
     Handler.execArgv := [] |}.

(** The error handler of a run with crash reporting enabled, after the
    command line interface was set up on it. *)
Definition cli_handler : Handler.ErrorHandler :=
  Handler.setupCLIErrorHandlerInterface false (Handler.new_ErrorHandler reporting_options).

(** The requests of the routing tests. *)
Definition GET_root : Server.IncomingMessage :=
  {| Server.url := "/"; Server.method := "GET" |}.
Definition GET_invalid : Server.IncomingMessage :=
  {| Server.url := "/invalid"; Server.method := "GET" |}.
Definition POST_invalid : Server.IncomingMessage :=
  {| Server.url := "/invalid"; Server.method := "POST" |}.

End Inputs.

(** * Properties *)

(** ** The MFA method *)

Section MFAMethodFacts.
Import MFA.

Lemma bool_decide_Z_true (a b : Z) : bool_decide (a = b) = true ↔ a = b.
Proof. apply bool_decide_eq_true. Qed.

(** C5: submitting a code is judged successful iff the status is 204 when
    the device method is active, and iff it is 200 when the sms or the
    voice method is active. *)
Theorem enterSuccessful_iff (m : MFAMethod) (r : AxiosResponse) :
  enterSuccessful m r = true ↔
  (type m = DEVICE ∧ status r = 204%Z)
  ∨ ((type m = SMS ∨ type m = VOICE) ∧ status r = 200%Z).
Proof.
  unfold enterSuccessful.
  destruct (type m); rewrite bool_decide_Z_true; split;
    try (intros [[? ?]|[[?|?] ?]]; congruence || discriminate); intros H.
  - left; done.
  - right; split; [left|]; done.
  - right; split; [right|]; done.
Qed.

(** C9: resending a code is judged successful iff the status is 202 when
    the device method is active, and iff it is 200 when the sms or the
    voice method is active; for the device method the status that makes a
    resend successful does not make an entered code successful. *)
Theorem resendSuccessful_iff (m : MFAMethod) (r : AxiosResponse) :
  (resendSuccessful m r = true ↔
   (type m = DEVICE ∧ status r = 202%Z)
   ∨ ((type m = SMS ∨ type m = VOICE) ∧ status r = 200%Z))
  ∧ (type m = DEVICE ∧ resendSuccessful m r = true → enterSuccessful m r = false).
Proof.
  split.
  - unfold resendSuccessful.
    destruct (type m); rewrite bool_decide_Z_true; split;
      try (intros [[? ?]|[[?|?] ?]]; congruence || discriminate); intros H.
    + left; done.
    + right; split; [left|]; done.
    + right; split; [right|]; done.
  - intros [Hd Hr]. unfold resendSuccessful, enterSuccessful in *.
    rewrite Hd in *. apply bool_decide_Z_true in Hr.
    apply bool_decide_eq_false. rewrite Hr. discriminate.
Qed.






(** The other unit tests of [processResendError]: the message for each kind
    of failure. *)
Example processResendError_tests :
  err_msg (processResendError (new_MFAMethod (Some "voice") None)
             {| name := "Error"; response := None |}) = "No response received"
  ∧ err_msg (processResendError (new_MFAMethod (Some "device") None)
               {| name := "AxiosError";
                  response := Some {| err_status := 403; data := None |} |}) = "Timeout"
  ∧ err_msg (processResendError (new_MFAMethod (Some "sms") None)
               {| name := "AxiosError";
                  response := Some {| err_status := 412; data := None |} |})
    = "Bad request, no response data"
  ∧ err_msg (processResendError (new_MFAMethod (Some "sms") None)
               {| name := "AxiosError";
                  response := Some {| err_status := 500; data := None |} |})
    = "Bad request, unknown cause with method 'SMS' (Number ID: 1)"
  ∧ err_msg (processResendError (new_MFAMethod (Some "voice") None)
               {| name := "AxiosError";
                  response := Some {| err_status := 412;
                    data := Some {| trustedPhoneNumbers := PhonesMissing |} |} |})
    = "No trusted phone numbers registered".
Proof. repeat split. Qed.


(** The same text for the unit test, whose method has the default number
    id 1. *)
Example processResendError_S3_text :
  err_msg (processResendError (new_MFAMethod (Some "voice") None) S3_failure)
  = "Selected Phone Number ID does not exist.
Available numbers:
- 2: +49-123-456
- 3: +49-789-123".
Proof. reflexivity. Qed.
End MFAMethodFacts.

(** ** The library lock *)

Section LockFacts.
Import App.
Variable options : OptionValues.
Variable pid : Z.

Local Arguments lockFilePath : simpl never.

Local Ltac run_lock :=
  unfold acquireLibraryLock, releaseLibraryLock, existsSync, readFile, rm_force,
    writeFile, throw, mbind, M_bind, mret, M_ret; simpl.

Lemma exists_true (fs : FS) (p c : string) :
  fs !! p = Some c → bool_decide (is_Some (fs !! p)) = true.
Proof. intros H. apply bool_decide_eq_true. eauto. Qed.

Lemma exists_false (fs : FS) (p : string) :
  fs !! p = None → bool_decide (is_Some (fs !! p)) = false.
Proof. intros H. apply bool_decide_eq_false. rewrite H. apply is_Some_None. Qed.

Lemma acquire_locked (fs : FS) (c : string) :
  fs !! lockFilePath options = Some c → force options = false →
  acquireLibraryLock options pid fs =
    (Throw (LibraryError ("Locked by PID " ++ c
       ++ ". Use --force (or FORCE env variable) to forcefully remove the lock")), fs).
Proof.
  intros Hc Hf. run_lock. rewrite (exists_true _ _ _ Hc), Hf. simpl.
  rewrite Hc. reflexivity.
Qed.

Lemma acquire_free (fs : FS) :
  fs !! lockFilePath options = None →
  acquireLibraryLock options pid fs = (Ok (), <[lockFilePath options := pretty pid]> fs).
Proof. intros Hn. run_lock. rewrite (exists_false _ _ Hn). reflexivity. Qed.

Lemma acquire_forced (fs : FS) :
  force options = true →
  acquireLibraryLock options pid fs = (Ok (), <[lockFilePath options := pretty pid]> fs).
Proof.
  intros Hf. destruct (fs !! lockFilePath options) as [c|] eqn:Hc.
  - run_lock. rewrite (exists_true _ _ _ Hc), Hf. simpl.
    by rewrite insert_delete_eq.
  - by apply acquire_free.
Qed.

Lemma release_missing (fs : FS) :
  fs !! lockFilePath options = None →
  releaseLibraryLock options pid fs =
    (Throw (LibraryError "Unable to release library lock, no lock exists"), fs).
Proof. intros Hn. run_lock. rewrite (exists_false _ _ Hn). reflexivity. Qed.

Lemma release_own (fs : FS) :
  fs !! lockFilePath options = Some (pretty pid) →
  releaseLibraryLock options pid fs = (Ok (), delete (lockFilePath options) fs).
Proof.
  intros Hc. run_lock. rewrite (exists_true _ _ _ Hc). simpl. rewrite Hc.
  rewrite String.eqb_refl. reflexivity.
Qed.

Lemma release_forced (fs : FS) (c : string) :
  fs !! lockFilePath options = Some c → force options = true →
  releaseLibraryLock options pid fs = (Ok (), delete (lockFilePath options) fs).
Proof.
  intros Hc Hf. run_lock. rewrite (exists_true _ _ _ Hc). simpl. rewrite Hc, Hf.
  rewrite andb_false_r. reflexivity.
Qed.

Lemma release_foreign (fs : FS) (c : string) :
  fs !! lockFilePath options = Some c → c ≠ pretty pid → force options = false →
  releaseLibraryLock options pid fs =
    (Throw (LibraryError ("Locked by PID " ++ c
       ++ ", cannot release. Use --force (or FORCE env variable) to forcefully remove the lock")),
     fs).
Proof.
  intros Hc Hne Hf. run_lock. rewrite (exists_true _ _ _ Hc). simpl. rewrite Hc, Hf.
  apply String.eqb_neq in Hne. rewrite Hne. reflexivity.
Qed.

(** C6: when the lock file exists and force is not set, acquiring fails with
    an error that names the PID read from the file and the files are left as
    they were; when the file is absent, or force is set, the PID of this
    process is written into the lock file and the call succeeds. *)
Theorem acquireLibraryLock_spec (fs : FS) :
  (∀ c, fs !! lockFilePath options = Some c ∧ force options = false →
        acquireLibraryLock options pid fs =
          (Throw (LibraryError ("Locked by PID " ++ c
             ++ ". Use --force (or FORCE env variable) to forcefully remove the lock")), fs))
  ∧ (fs !! lockFilePath options = None ∨ force options = true →
     acquireLibraryLock options pid fs
       = (Ok (), <[lockFilePath options := pretty pid]> fs)
     ∧ (acquireLibraryLock options pid fs).2 !! lockFilePath options = Some (pretty pid)).
Proof.
  split.
  - intros c [Hc Hf]. by apply acquire_locked.
  - intros H.
    assert (acquireLibraryLock options pid fs
            = (Ok (), <[lockFilePath options := pretty pid]> fs)) as ->.
    { destruct H; [by apply acquire_free | by apply acquire_forced]. }
    split; [reflexivity|]. simpl. apply lookup_insert_eq.
Qed.

(** C1 (amended): when the lock file exists, releasing removes it iff its
    content is the PID of this process or force is set; when neither holds,
    releasing fails and the files are left as they were. *)
Theorem releaseLibraryLock_removes_iff (fs : FS) (c : string) :
  fs !! lockFilePath options = Some c →
  ((releaseLibraryLock options pid fs).2 !! lockFilePath options = None
   ↔ c = pretty pid ∨ force options = true)
  ∧ (c ≠ pretty pid ∧ force options = false →
     releaseLibraryLock options pid fs =
       (Throw (LibraryError ("Locked by PID " ++ c
          ++ ", cannot release. Use --force (or FORCE env variable) to forcefully remove the lock")),
        fs)).
Proof.
  intros Hc. split.
  - destruct (decide (c = pretty pid)) as [-> | Hne].
    + rewrite (release_own fs Hc). simpl. rewrite lookup_delete_eq. tauto.
    + destruct (force options) eqn:Hf.
      * rewrite (release_forced fs c Hc Hf). simpl. rewrite lookup_delete_eq. tauto.
      * rewrite (release_foreign fs c Hc Hne Hf). simpl. rewrite Hc.
        split; [discriminate | intros [?|?]; [done | discriminate]].
  - intros [Hne Hf]. by apply release_foreign.
Qed.

(** A process that acquired the lock releases it. *)
Lemma release_after_acquire (fs fs1 : FS) :
  acquireLibraryLock options pid fs = (Ok (), fs1) →
  releaseLibraryLock options pid fs1 = (Ok (), delete (lockFilePath options) fs1).
Proof.
  intros Ha. destruct (fs !! lockFilePath options) as [c|] eqn:Hc.
  - destruct (force options) eqn:Hf.
    + rewrite (acquire_forced fs Hf) in Ha. injection Ha as <-.
      apply release_own. apply lookup_insert_eq.
    + rewrite (acquire_locked fs c Hc Hf) in Ha. discriminate.
  - rewrite (acquire_free fs Hc) in Ha. injection Ha as <-.
    apply release_own. apply lookup_insert_eq.
Qed.
End LockFacts.

(** C1 (as stated): with force set, releasing removes a lock file whose
    content is not the PID of this process. *)
Lemma releaseLibraryLock_not_only_own :
  ¬ (∀ (options : App.OptionValues) (pid : Z) (fs : gmap string string) (c : string),
       fs !! App.lockFilePath options = Some c →
       (App.releaseLibraryLock options pid fs).2 !! App.lockFilePath options = None →
       c = pretty pid).
Proof.
  intros H.
  specialize (H Inputs.forced_options 77%Z Inputs.foreign_lock "4242").
  assert (Hc : "4242" = pretty 77%Z) by (apply H; vm_compute; reflexivity).
  vm_compute in Hc. discriminate Hc.
Qed.

(** The process with PID 77 releases the lock that it wrote. *)
Lemma releaseLibraryLock_removes_iff_own :
  ((App.releaseLibraryLock Inputs.plain_options 77 Inputs.own_lock).2
     !! App.lockFilePath Inputs.plain_options = None
   ↔ "77" = pretty 77%Z ∨ App.force Inputs.plain_options = true)
  ∧ ("77" ≠ pretty 77%Z ∧ App.force Inputs.plain_options = false →
     App.releaseLibraryLock Inputs.plain_options 77 Inputs.own_lock =
       (Throw (LibraryError ("Locked by PID " ++ "77"
          ++ ", cannot release. Use --force (or FORCE env variable) to forcefully remove the lock")),
        Inputs.own_lock)).
Proof.
  apply (releaseLibraryLock_removes_iff Inputs.plain_options 77 Inputs.own_lock "77").
  vm_compute. reflexivity.
Defined.

(** ** The archive entry point *)

Section ArchiveFacts.
Import App.
Variables Asset Album : Type.
Variable options : OptionValues.
Variable pid : Z.
Variable authenticate : M FS ().
Variable sync : M FS (list Asset * list Album).
Variable archivePath : string → list Asset → M FS ().

(** The collaborators leave the lock file alone. *)
Hypothesis authenticate_lock : ∀ fs : FS,
  (authenticate fs).2 !! lockFilePath options = fs !! lockFilePath options.
Hypothesis sync_lock : ∀ fs : FS,
  (sync fs).2 !! lockFilePath options = fs !! lockFilePath options.
Hypothesis archivePath_lock : ∀ (p : string) (l : list Asset) (fs : FS),
  (archivePath p l fs).2 !! lockFilePath options = fs !! lockFilePath options.

Local Arguments lockFilePath : simpl never.
Local Arguments releaseLibraryLock : simpl never.
Local Arguments acquireLibraryLock : simpl never.

Local Ltac run_app :=
  unfold ArchiveApp_run, SyncApp_run, iCloudApp_run, clean, ArchiveApp_clean,
    SyncApp_clean, iCloudApp_clean, try_finally, try_catch, logged, note, throw,
    mbind, M_bind, mret, M_ret; simpl.

(** C10 (amended): when the lock can be acquired, and the authentication,
    the sync engine and the archive engine leave the lock file alone, a run
    of the archive app acquires the lock, authenticates and runs the sync
    engine, and only after a successful sync calls [archivePath], with the
    path and exactly the remote assets that the sync returned; a failure of
    the authentication, of the sync or of the archiving is thrown as an
    [ArchiveError] that carries the archive path; and in each of these
    outcomes the lock file is gone at the end. *)
Theorem ArchiveApp_run_acquired (path : string) (w : World Asset Album) :
  files w !! lockFilePath options = None ∨ force options = true →
  ∃ (r : Result ()) (w' : World Asset Album) (stages : list (Call Asset Album)),
    ArchiveApp_run Asset Album options pid authenticate sync archivePath ArchiveAppC path w
      = (r, w')
    ∧ files w' !! lockFilePath options = None
    ∧ (r = Ok () ∨ ∃ e, r = Throw (archive_failed path e))
    ∧ calls w' = (calls w
        ++ [CRegisterHandlers; CRegisterHandlers; CRegisterHandlers;
            CAcquireLibraryLock (Ok ())]
        ++ stages
        ++ [CRemoveHandlers; CReleaseLibraryLock (Ok ()); CRemoveHandlers;
            CRemoveHandlers])%list
    ∧ ((∃ e, stages = [CAuthenticate (Throw e)]
             ∧ r = Throw (archive_failed path (sync_failed (authentication_failed e))))
       ∨ (∃ e, stages = [CAuthenticate (Ok ()); CSync (Throw e)]
               ∧ r = Throw (archive_failed path (sync_failed e)))
       ∨ (∃ remoteAssets albums ra,
             stages = [CAuthenticate (Ok ()); CSync (Ok (remoteAssets, albums));
                       CArchivePath path remoteAssets ra]
             ∧ r = match ra with
                   | Ok _ => Ok ()
                   | Throw e => Throw (archive_failed path e)
                   end)).
Proof.
  intros Hfree.
  set (fs1 := <[lockFilePath options:=pretty pid]> (files w)).
  assert (Hacq1 : acquireLibraryLock options pid (files w) = (Ok (), fs1)).
  { destruct Hfree; [by apply acquire_free | by apply acquire_forced]. }
  assert (Hown : fs1 !! lockFilePath options = Some (pretty pid)).
  { apply lookup_insert_eq. }
  run_app. rewrite Hacq1. simpl.
  pose proof (authenticate_lock fs1) as Hl2.
  destruct (authenticate fs1) as [[[]|e] fs2] eqn:Hauth; simpl in *.
  - pose proof (sync_lock fs2) as Hl3.
    destruct (sync fs2) as [[[remoteAssets albums]|e] fs3] eqn:Hsync; simpl in *.
    + pose proof (archivePath_lock path remoteAssets fs3) as Hl4.
      destruct (archivePath path remoteAssets fs3) as [ra fs4] eqn:Harch; simpl in *.
      assert (Hown4 : fs4 !! lockFilePath options = Some (pretty pid)) by congruence.
      destruct ra as [[]|e]; simpl;
        rewrite (release_own options pid fs4 Hown4); simpl;
        [eexists _, _, [CAuthenticate (Ok ()); CSync (Ok (remoteAssets, albums));
                        CArchivePath path remoteAssets (Ok ())]
        |eexists _, _, [CAuthenticate (Ok ()); CSync (Ok (remoteAssets, albums));
                        CArchivePath path remoteAssets (Throw e)]];
        (split; [reflexivity|]); (split; [apply lookup_delete_eq|]);
        (split; [eauto|]); (split; [by rewrite <- !app_assoc|]);
        right; right; eauto.
    + assert (Hown3 : fs3 !! lockFilePath options = Some (pretty pid)) by congruence.
      rewrite (release_own options pid fs3 Hown3). simpl.
      eexists _, _, [CAuthenticate (Ok ()); CSync (Throw e)].
      (split; [reflexivity|]); (split; [apply lookup_delete_eq|]);
        (split; [right; eexists; reflexivity|]); (split; [by rewrite <- !app_assoc|]).
      right; left; eauto.
  - assert (Hown2 : fs2 !! lockFilePath options = Some (pretty pid)) by congruence.
    rewrite (release_own options pid fs2 Hown2). simpl.
    eexists _, _, [CAuthenticate (Throw e)].
    (split; [reflexivity|]); (split; [apply lookup_delete_eq|]);
      (split; [right; eexists; reflexivity|]); (split; [by rewrite <- !app_assoc|]).
    left; eauto.
Qed.
End ArchiveFacts.

(** A run on an empty data dir, with collaborators that succeed. *)
Lemma ArchiveApp_run_acquired_fresh :
  ∃ (r : Result ()) (w' : App.World string string)
    (stages : list (App.Call string string)),
    App.ArchiveApp_run string string Inputs.plain_options 77 Inputs.authenticate_ok
      Inputs.sync_ok Inputs.archivePath_ok App.ArchiveAppC Inputs.archive_path
      Inputs.fresh_world = (r, w')
    ∧ App.files w' !! App.lockFilePath Inputs.plain_options = None
    ∧ (r = Ok () ∨ ∃ e, r = Throw (App.archive_failed Inputs.archive_path e))
    ∧ App.calls w' = (App.calls Inputs.fresh_world
        ++ [App.CRegisterHandlers; App.CRegisterHandlers; App.CRegisterHandlers;
            App.CAcquireLibraryLock (Ok ())]
        ++ stages
        ++ [App.CRemoveHandlers; App.CReleaseLibraryLock (Ok ()); App.CRemoveHandlers;
            App.CRemoveHandlers])%list
    ∧ ((∃ e, stages = [App.CAuthenticate (Throw e)]
             ∧ r = Throw (App.archive_failed Inputs.archive_path
                            (App.sync_failed (App.authentication_failed e))))
       ∨ (∃ e, stages = [App.CAuthenticate (Ok ()); App.CSync (Throw e)]
               ∧ r = Throw (App.archive_failed Inputs.archive_path (App.sync_failed e)))
       ∨ (∃ remoteAssets albums ra,
             stages = [App.CAuthenticate (Ok ()); App.CSync (Ok (remoteAssets, albums));
                       App.CArchivePath Inputs.archive_path remoteAssets ra]
             ∧ r = match ra with
                   | Ok _ => Ok ()
                   | Throw e => Throw (App.archive_failed Inputs.archive_path e)
                   end)).
Proof.
  apply (ArchiveApp_run_acquired string string Inputs.plain_options 77
           Inputs.authenticate_ok Inputs.sync_ok Inputs.archivePath_ok).
  - intros fs. reflexivity.
  - intros fs. apply lookup_insert_ne. vm_compute. discriminate.
  - intros p l fs. reflexivity.
  - left. vm_compute. reflexivity.
Defined.

(** C10 (as stated): when another process holds the lock and force is not
    set, the run ends with the [LibraryError] of the failed release, not
    with an [ArchiveError], and the lock file is still there. *)
Lemma ArchiveApp_run_foreign_lock :
  let out :=
    App.ArchiveApp_run string string Inputs.plain_options 77 Inputs.authenticate_ok
      Inputs.sync_ok Inputs.archivePath_ok App.ArchiveAppC Inputs.archive_path
      Inputs.locked_world in
  ¬ (∀ e, out.1 = Throw e → err_cls e = ArchiveErrorC)
  ∧ ¬ (App.files out.2 !! App.lockFilePath Inputs.plain_options = None).
Proof.
  intros out. split.
  - intros Hcls. specialize (Hcls _ eq_refl). vm_compute in Hcls. discriminate Hcls.
  - intros Hgone. vm_compute in Hgone. discriminate Hgone.
Qed.

(** The same run, evaluated: what is thrown, what is left on disk and which
    calls were made. *)
Example ArchiveApp_run_foreign_lock_outcome :
  let out :=
    App.ArchiveApp_run string string Inputs.plain_options 77 Inputs.authenticate_ok
      Inputs.sync_ok Inputs.archivePath_ok App.ArchiveAppC Inputs.archive_path
      Inputs.locked_world in
  out.1 = Throw (LibraryError ("Locked by PID 4242, cannot release. "
            ++ "Use --force (or FORCE env variable) to forcefully remove the lock"))
  ∧ App.files out.2 !! App.lockFilePath Inputs.plain_options = Some "4242"
  ∧ App.calls out.2 =
      [App.CRegisterHandlers; App.CRegisterHandlers; App.CRegisterHandlers;
       App.CAcquireLibraryLock (Throw (LibraryError ("Locked by PID 4242. "
         ++ "Use --force (or FORCE env variable) to forcefully remove the lock")));
       App.CRemoveHandlers;
       App.CReleaseLibraryLock (Throw (LibraryError ("Locked by PID 4242, cannot release. "
         ++ "Use --force (or FORCE env variable) to forcefully remove the lock")))].
Proof. vm_compute. repeat split. Qed.

(** ** The error handler *)

Section HandleFacts.
Import Handler.
Variable getDescription : iCPSError → string.
Variable randomUUID : string.
Variable options : App.OptionValues.
Variable h : ErrorHandler.
Variable err : iCPSError.

Local Abbreviation run := (handle getDescription randomUUID (Ok ()) h err []).

End HandleFacts.



(** The same call, evaluated: nothing is emitted, logged or ended. *)
Example handle_unheard_outcome :
  Handler.handle err_msg "6a1f" (Ok ()) (Handler.new_ErrorHandler Inputs.plain_options)
    (LibraryError "Unable to acquire lock") []
  = (Throw (Handler.unhandled
       "Unable to acquire lock (Error Code: No error code! Pelase enable crash reporting!)"),
     []).
Proof. reflexivity. Qed.

(** The handler of [SIGTERM], with crash reporting enabled and the command
    line interface listening: the error is printed and the process exits
    with code 1; nothing is reported. *)
Example handle_SIGTERM :
  Handler.handle err_msg "6a1f" (Ok ()) Inputs.cli_handler (InterruptError "SIGTERM") []
  = (Ok (), [Handler.Emit Handler.ERROR_EVENT "SIGTERM"; Handler.LogError "SIGTERM";
             Handler.ProcessExit 1]).
Proof. reflexivity. Qed.

(** A fatal error that is not an interrupt, with crash reporting enabled. *)
Example handle_fatal_reported :
  Handler.handle err_msg "6a1f" (Ok ()) Inputs.cli_handler
    (LibraryError "Unable to acquire lock") []
  = (Ok (), [Handler.SendReport (LibraryError "Unable to acquire lock") "6a1f";
             Handler.Emit Handler.ERROR_EVENT "Unable to acquire lock (Error Code: 6a1f)";
             Handler.LogError "Unable to acquire lock (Error Code: 6a1f)";
             Handler.ProcessExit 1]).
Proof. reflexivity. Qed.

(** ** Scrubbing of the environment *)

Section CleanEnvFacts.
Import Handler.

Lemma clean_cli_env (entry : ConfidentialEntry) (p : Process) (flag : string) :
  env (clean_cli entry p flag) = env p.
Proof.
  unfold clean_cli.
  repeat (match goal with |- context [if ?b then _ else _] => destruct b end; simpl);
    reflexivity.
Qed.

Lemma clean_cli_execArgv (entry : ConfidentialEntry) (p : Process) (flag : string) :
  execArgv (clean_cli entry p flag) = execArgv p.
Proof.
  unfold clean_cli.
  repeat (match goal with |- context [if ?b then _ else _] => destruct b end; simpl);
    reflexivity.
Qed.

Lemma clean_flags_env (entry : ConfidentialEntry) (flags : list string) (p : Process) :
  env (foldl (clean_cli entry) p flags) = env p.
Proof.
  revert p. induction flags as [|f flags IH]; intros p; simpl.
  - reflexivity.
  - rewrite IH. apply clean_cli_env.
Qed.

Lemma clean_flags_execArgv (entry : ConfidentialEntry) (flags : list string) (p : Process) :
  execArgv (foldl (clean_cli entry) p flags) = execArgv p.
Proof.
  revert p. induction flags as [|f flags IH]; intros p; simpl.
  - reflexivity.
  - rewrite IH. apply clean_cli_execArgv.
Qed.

Lemma clean_entry_env (p : Process) (entry : ConfidentialEntry) :
  env (clean_entry p entry) =
    if env_truthy (env p !! c_env entry)
    then <[c_env entry := replacement entry]> (env p)
    else env p.
Proof.
  unfold clean_entry. rewrite clean_flags_env.
  destruct (env_truthy (env p !! c_env entry)); reflexivity.
Qed.

Lemma clean_entry_execArgv (p : Process) (entry : ConfidentialEntry) :
  execArgv (clean_entry p entry) = execArgv p.
Proof.
  unfold clean_entry. rewrite clean_flags_execArgv.
  destruct (env_truthy (env p !! c_env entry)); reflexivity.
Qed.

(** No entry of [process.execArgv] is ever written. *)
Lemma cleanEnv_execArgv (p : Process) : execArgv (cleanEnv p) = execArgv p.
Proof.
  unfold cleanEnv. generalize confidentialData as entries.
  intros entries. revert p. induction entries as [|e entries IH]; intros p; simpl.
  - reflexivity.
  - rewrite IH. apply clean_entry_execArgv.
Qed.

Lemma clean_entry_env_other (p : Process) (entry : ConfidentialEntry) (k : string) :
  k ≠ c_env entry → env (clean_entry p entry) !! k = env p !! k.
Proof.
  intros Hk. rewrite clean_entry_env.
  destruct (env_truthy (env p !! c_env entry)); [|reflexivity].
  apply lookup_insert_ne. congruence.
Qed.

Lemma clean_entry_env_own (p : Process) (entry : ConfidentialEntry) :
  env_truthy (env p !! c_env entry) = true →
  env (clean_entry p entry) !! c_env entry = Some (replacement entry).
Proof. intros Ht. rewrite clean_entry_env, Ht. apply lookup_insert_eq. Qed.

(** A credential variable that is set and not empty holds its placeholder
    afterwards. *)
Lemma cleanEnv_env (p : Process) (entry : ConfidentialEntry) :
  entry ∈ confidentialData →
  env_truthy (env p !! c_env entry) = true →
  env (cleanEnv p) !! c_env entry = Some (replacement entry).
Proof.
  intros Hin Htruthy. unfold cleanEnv, confidentialData in *. cbn [foldl].
  apply elem_of_cons in Hin as [-> | Hin];
    [|apply elem_of_cons in Hin as [-> | Hin];
      [|apply elem_of_cons in Hin as [-> | Hin]; [|by apply elem_of_nil in Hin]]];
    cbn [c_env replacement] in *.
  - rewrite !clean_entry_env_other by (cbn [c_env]; discriminate).
    by apply (clean_entry_env_own p).
  - rewrite clean_entry_env_other by (cbn [c_env]; discriminate).
    apply (clean_entry_env_own (clean_entry p _)). cbn [c_env].
    by rewrite clean_entry_env_other by (cbn [c_env]; discriminate).
  - apply (clean_entry_env_own (clean_entry (clean_entry p _) _)). cbn [c_env].
    by rewrite !clean_entry_env_other by (cbn [c_env]; discriminate).
Qed.

(** C2 (at the failing input): a password that follows [-p] in
    [process.execArgv] is still there after [cleanEnv]; the placeholder was
    written to [process.argv], over the path of the script. *)
Theorem cleanEnv_execArgv_password :
  cleanEnv Inputs.exec_password =
    {| env := ∅;
       argv := [Some "/usr/local/bin/node"; Some "<APPLE ID PASSWORD>"; Some "sync"];
       execArgv := [Some "-p"; Some "hunter2"] |}.
Proof. vm_compute. reflexivity. Qed.

(** Only the first occurrence of a flag in [process.argv] is looked at. *)
Example cleanEnv_second_flag :
  argv (cleanEnv Inputs.twice_password) =
    [Some "/usr/local/bin/node"; Some "/usr/local/bin/icloud-photos-sync"; Some "sync";
     Some "-p"; Some "<APPLE ID PASSWORD>"; Some "-p"; Some "hunter2"].
Proof. vm_compute. reflexivity. Qed.
End CleanEnvFacts.

(** ** The MFA endpoint *)

Section ServerFacts.
Import Server.

Lemma strip_prefix_app (p s : string) : strip_prefix p (p ++ s) = Some s.
Proof.
  induction p as [|a p IH]; simpl.
  - reflexivity.
  - rewrite Ascii.eqb_refl. exact IH.
Qed.

Lemma code_of_url_code (code : string) :
  code_of_url (CODE_INPUT ++ "?code=" ++ code) = Some code.
Proof.
  unfold code_of_url.
  change (CODE_INPUT ++ "?code=" ++ code) with ((CODE_INPUT ++ "?code=") ++ code).
  apply strip_prefix_app.
Qed.

(** [six_digits] holds of the strings of length six all of whose characters
    are decimal digits. *)
Lemma six_digits_iff (code : string) :
  six_digits code = true ↔
  String.length code = 6%nat
  ∧ Forall (λ a, is_digit a = true) (String.list_ascii_of_string code).
Proof.
  unfold six_digits. rewrite andb_true_iff, bool_decide_eq_true.
  rewrite forallb_forall, Forall_forall.
  split; intros [Hl Hd]; (split; [exact Hl|]); intros a Ha; apply Hd;
    by apply list_elem_of_In.
Qed.

(** C3: a request to the code route whose code is exactly six decimal
    digits is answered 200 with [Read MFA code: C] and [MFA_RECEIVED] is
    emitted once, with the current method and the code; every other code
    is answered 400 with the fixed text, a warning is emitted and no
    [MFA_RECEIVED]. *)
Theorem handleMFACode_spec (mfaMethod : MFA.MFAMethod) (code verb : string) :
  (six_digits code = true →
   handleMFACode mfaMethod {| url := CODE_INPUT ++ "?code=" ++ code; method := verb |} =
     [SendResponse 200 ("Read MFA code: " ++ code); EmitMFAReceived mfaMethod code])
  ∧ (six_digits code = false →
     handleMFACode mfaMethod {| url := CODE_INPUT ++ "?code=" ++ code; method := verb |} =
       [EmitHandlerEvent
          (MFAWarning "Received unexpected MFA code format, expecting 6 digits");
        SendResponse 400 "Unexpected MFA code format! Expecting 6 digits"])
  ∧ length (filter (λ e, is_received e = true)
      (handleMFACode mfaMethod {| url := CODE_INPUT ++ "?code=" ++ code; method := verb |}))
    = (if six_digits code then 1 else 0)%nat
  ∧ length (filter (λ e, is_warning e = true)
      (handleMFACode mfaMethod {| url := CODE_INPUT ++ "?code=" ++ code; method := verb |}))
    = (if six_digits code then 0 else 1)%nat.
Proof.
  unfold handleMFACode. cbn [url].
  rewrite code_of_url_code.
  destruct (six_digits code); repeat split; intros; (reflexivity || discriminate).
Qed.

(** Scenarios S1 and S2 of the spec. *)
Example handleMFACode_S1 :
  handleMFACode (MFA.new_MFAMethod None None)
    {| url := "/mfa?code=123456"; method := "POST" |}
  = [SendResponse 200 "Read MFA code: 123456";
     EmitMFAReceived (MFA.new_MFAMethod (Some "device") None) "123456"].
Proof. reflexivity. Qed.

Example handleMFACode_S2 :
  handleMFACode (MFA.new_MFAMethod None None)
    {| url := "/mfa?code=123 456"; method := "POST" |}
  = [EmitHandlerEvent (MFAWarning "Received unexpected MFA code format, expecting 6 digits");
     SendResponse 400 "Unexpected MFA code format! Expecting 6 digits"].
Proof. reflexivity. Qed.

Variables NAME VERSION : string.

(** C8: a request that matches none of the routes of the server (its URL
    starts with neither endpoint, and it is not the [GET /] of the banner)
    is answered by the router itself, without calling a handler: a [GET]
    with 400 and [Method not supported: GET], a [POST] with 404 and the
    list of the endpoints; a warning is emitted in both cases. *)
Theorem handleRequest_unknown (req : IncomingMessage) :
  String.prefix CODE_INPUT (url req) = false →
  String.prefix RESEND_CODE (url req) = false →
  ¬ (method req = "GET" ∧ url req = "/") →
  (method req = "GET" →
   handleRequest NAME VERSION req = Answered
     [EmitHandlerEvent (MFAWarning ("Received unknown method to endpoint "
                                    ++ url req ++ ": GET"));
      SendResponse 400 "Method not supported: GET"])
  ∧ (method req = "POST" →
     handleRequest NAME VERSION req = Answered
       [EmitHandlerEvent (MFAWarning ("Received request to unknown endpoint " ++ url req));
        SendResponse 404 ("Route not found, available endpoints: ["
                          ++ DQ ++ "/mfa" ++ DQ ++ "," ++ DQ ++ "/resend_mfa" ++ DQ ++ "]")]).
Proof.
  intros Hcode Hresend Hroot. unfold handleRequest. split; intros Hm; rewrite Hm.
  - destruct (String.eqb_spec (url req) "/") as [Hu|Hu]; [tauto|].
    reflexivity.
  - simpl. rewrite Hcode, Hresend. reflexivity.
Qed.
End ServerFacts.

(** The routing tests [GET /invalid] and [POST /invalid]. *)
Lemma handleRequest_unknown_invalid :
  Server.handleRequest "icloud-photos-sync" "1.0.1" Inputs.GET_invalid = Server.Answered
    [Server.EmitHandlerEvent (MFAWarning ("Received unknown method to endpoint "
                                   ++ Server.url Inputs.GET_invalid ++ ": GET"));
     Server.SendResponse 400 "Method not supported: GET"]
  ∧ Server.handleRequest "icloud-photos-sync" "1.0.1" Inputs.POST_invalid = Server.Answered
      [Server.EmitHandlerEvent
         (MFAWarning ("Received request to unknown endpoint "
                      ++ Server.url Inputs.POST_invalid));
       Server.SendResponse 404 ("Route not found, available endpoints: ["
         ++ Server.DQ ++ "/mfa" ++ Server.DQ ++ "," ++ Server.DQ ++ "/resend_mfa"
         ++ Server.DQ ++ "]")].
Proof.
  split.
  - apply (handleRequest_unknown "icloud-photos-sync" "1.0.1" Inputs.GET_invalid).
    + reflexivity.
    + reflexivity.
    + intros [_ Hu]. vm_compute in Hu. discriminate Hu.
    + reflexivity.
  - apply (handleRequest_unknown "icloud-photos-sync" "1.0.1" Inputs.POST_invalid).
    + reflexivity.
    + reflexivity.
    + intros [Hm _]. vm_compute in Hm. discriminate Hm.
    + reflexivity.
Defined.

(** The route [GET /] of the banner. *)
Example handleRequest_GET_root_banner :
  Server.handleRequest "icloud-photos-sync" "1.0.1" Inputs.GET_root =
    Server.Answered [Server.SendResponse 200
      "MFA Server up & running - icloud-photos-sync@v1.0.1"].
Proof. reflexivity. Qed.

(** * Further properties of the code *)

(** ** The MFA method: construction, payloads and rendering *)

Section MFAMethodMore.
Import MFA MFARequests.

(** [update] selects the phone methods for [sms] and [voice] only, every
    other string gives the device method; the number id is kept for the
    phone methods and dropped for the device method. *)
Theorem update_selects (mfaMethod : string) (n : Z) :
  (type (update mfaMethod n) = SMS ↔ mfaMethod = "sms")
  ∧ (type (update mfaMethod n) = VOICE ↔ mfaMethod = "voice")
  ∧ (type (update mfaMethod n) = DEVICE ↔ mfaMethod ≠ "sms" ∧ mfaMethod ≠ "voice")
  ∧ numberId (update mfaMethod n)
    = (if bool_decide (type (update mfaMethod n) = DEVICE) then None else Some n).
Proof.
  unfold update.
  destruct (String.eqb_spec mfaMethod "sms") as [-> | Hs]; simpl.
  - repeat split; try done; try (intros [? ?]; done).
  - destruct (String.eqb_spec mfaMethod "voice") as [-> | Hv]; simpl.
    + repeat split; try done; try (intros [? ?]; done).
    + repeat split; try done.
Qed.

Lemma updated_cases (m : MFAMethod) :
  updated m →
  (type m = DEVICE ∧ numberId m = None)
  ∨ (∃ n, (type m = SMS ∨ type m = VOICE) ∧ numberId m = Some n).
Proof.
  intros (s & n & ->). unfold update.
  destruct (String.eqb s "sms"); [right; exists n; simpl; auto|].
  destruct (String.eqb s "voice"); [right; exists n; simpl; auto|].
  left; simpl; auto.
Qed.

(** The payload for entering a code is the payload of a resend plus the
    code, whatever the method; the resend payload is missing exactly for the
    device method, and the mode it names is the method. *)
Theorem payloads_agree (m : MFAMethod) (mfa : string) :
  securityCode_code (getEnterPayload m mfa) = mfa
  ∧ phone (getEnterPayload m mfa) = getResendPayload m
  ∧ (getResendPayload m = None ↔ type m = DEVICE)
  ∧ (∀ pl, getResendPayload m = Some pl →
       phoneNumber_id pl = numberId m
       ∧ (mode pl = "sms" ↔ type m = SMS)
       ∧ (mode pl = "voice" ↔ type m = VOICE)).
Proof.
  unfold getEnterPayload, getResendPayload.
  destruct (type m); simpl;
    (split; [reflexivity|]); (split; [reflexivity|]); (split; [split; done|]);
    intros pl' Hpl; simplify_eq; simpl; repeat split; done.
Qed.

(** A method made by the constructor or by [update] never sends a phone
    payload without a number id. *)
Theorem phone_payload_has_id (m : MFAMethod) (pl : PhonePayload) :
  updated m →
  getResendPayload m = Some pl →
  ∃ n, phoneNumber_id pl = Some n.
Proof.
  intros Hu Hpl. unfold getResendPayload in Hpl.
  destruct (updated_cases m Hu) as [[Hd _] | (n & _ & Hn)].
  - rewrite Hd in Hpl. discriminate Hpl.
  - exists n. destruct (type m); simplify_eq; simpl; exact Hn.
Qed.

Lemma phone_payload_has_id_sms :
  ∃ n, phoneNumber_id {| phoneNumber_id := Some 3%Z; mode := "sms" |} = Some n.
Proof.
  apply (phone_payload_has_id (update "sms" 3)).
  - exists "sms", 3%Z. reflexivity.
  - reflexivity.
Defined.

(** The endpoints follow the payloads: the device endpoints go with a
    missing resend payload, the phone endpoints with a phone payload. *)
Theorem urls_follow_method (DEV PHONE DEV_ENTER PHONE_ENTER : string) (m : MFAMethod) :
  (type m = DEVICE
   ∧ getResendURL DEV PHONE m = DEV
   ∧ getEnterURL DEV_ENTER PHONE_ENTER m = DEV_ENTER
   ∧ getResendPayload m = None)
  ∨ (type m ≠ DEVICE
     ∧ getResendURL DEV PHONE m = PHONE
     ∧ getEnterURL DEV_ENTER PHONE_ENTER m = PHONE_ENTER
     ∧ is_Some (getResendPayload m)).
Proof.
  unfold getResendURL, getEnterURL, getResendPayload.
  destruct (type m); [left | right | right]; repeat split; eauto; discriminate.
Qed.

Lemma string_length_app (s t : string) :
  String.length (s ++ t) = (String.length s + String.length t)%nat.
Proof. induction s as [|a s IH]; simpl; [reflexivity | by rewrite IH]. Qed.

Lemma string_app_inj_r (s1 s2 t : string) : s1 ++ t = s2 ++ t → s1 = s2.
Proof.
  revert s2. induction s1 as [|a s1 IH]; intros [|b s2] H.
  - reflexivity.
  - apply (f_equal String.length) in H. rewrite !string_length_app in H.
    simpl in H. lia.
  - apply (f_equal String.length) in H. rewrite !string_length_app in H.
    simpl in H. lia.
  - change (String a (s1 ++ t) = String b (s2 ++ t)) in H.
    injection H as -> H. f_equal. by apply IH.
Qed.

(** The rendering of a method tells the methods apart: two methods made by
    the constructor or by [update] that print the same are the same. *)
Theorem toString_inj (m1 m2 : MFAMethod) :
  updated m1 → updated m2 → toString m1 = toString m2 → m1 = m2.
Proof.
  intros H1 H2 Heq.
  destruct m1 as [t1 i1], m2 as [t2 i2].
  destruct (updated_cases _ H1) as [[Ht1 Hi1] | (n1 & Ht1 & Hi1)];
  destruct (updated_cases _ H2) as [[Ht2 Hi2] | (n2 & Ht2 & Hi2)];
    simpl in *; subst.
  - reflexivity.
  - destruct Ht2 as [-> | ->]; unfold toString in Heq; simpl in Heq; discriminate.
  - destruct Ht1 as [-> | ->]; unfold toString in Heq; simpl in Heq; discriminate.
  - destruct Ht1 as [-> | ->], Ht2 as [-> | ->];
      unfold toString in Heq; simpl in Heq; try discriminate;
      injection Heq as Heq;
      change (pretty n1 ++ ")" = pretty n2 ++ ")") in Heq;
      apply string_app_inj_r in Heq;
      apply (inj pretty) in Heq; by subst.
Qed.

Lemma toString_inj_voice :
  update "voice" 2 = new_MFAMethod (Some "voice") (Some 2%Z).
Proof.
  apply toString_inj.
  - exists "voice", 2%Z. reflexivity.
  - exists "voice", 2%Z. reflexivity.
  - reflexivity.
Defined.

(** Whatever went wrong with a resend, the result is an [iCloudWarning]
    that keeps the failure as its cause, and its message is one of the five
    fixed texts or the listing of the available numbers below its first
    line. *)
Theorem processResendError_warning (m : MFAMethod) (err : ResendFailure) :
  err_cls (processResendError m err) = iCloudWarningC
  ∧ err_cause (processResendError m err) = Some (as_cause err)
  ∧ (err_msg (processResendError m err) = "No response received"
     ∨ err_msg (processResendError m err) = "Timeout"
     ∨ err_msg (processResendError m err) = "Bad request, no response data"
     ∨ err_msg (processResendError m err) = "No trusted phone numbers registered"
     ∨ err_msg (processResendError m err)
       = "Bad request, unknown cause with method " ++ toString m
     ∨ String.prefix "Selected Phone Number ID does not exist."
         (err_msg (processResendError m err)) = true).
Proof.
  assert (Hshape : ∀ w : iCPSError,
    err_cls w = iCloudWarningC → err_cause w = Some (as_cause err) →
    (err_msg w = "No response received"
     ∨ err_msg w = "Timeout"
     ∨ err_msg w = "Bad request, no response data"
     ∨ err_msg w = "No trusted phone numbers registered"
     ∨ err_msg w = "Bad request, unknown cause with method " ++ toString m
     ∨ String.prefix "Selected Phone Number ID does not exist." (err_msg w) = true) →
    err_cls w = iCloudWarningC ∧ err_cause w = Some (as_cause err)
    ∧ (err_msg w = "No response received"
       ∨ err_msg w = "Timeout"
       ∨ err_msg w = "Bad request, no response data"
       ∨ err_msg w = "No trusted phone numbers registered"
       ∨ err_msg w = "Bad request, unknown cause with method " ++ toString m
       ∨ String.prefix "Selected Phone Number ID does not exist." (err_msg w) = true))
    by (intros w ? ? ?; repeat split; assumption).
  unfold processResendError.
  destruct (negb (String.eqb (name err) "AxiosError") || negb (is_response err)).
  { apply Hshape; [reflexivity | reflexivity | left; reflexivity]. }
  destruct (response err) as [r|].
  2: { apply Hshape; [reflexivity | reflexivity | left; reflexivity]. }
  destruct (bool_decide (err_status r = 403%Z)).
  { apply Hshape; [reflexivity | reflexivity | right; left; reflexivity]. }
  destruct (bool_decide (err_status r = 412%Z)).
  2: { apply Hshape; [reflexivity | reflexivity | do 4 right; left; reflexivity]. }
  destruct (data r) as [d|].
  2: { apply Hshape; [reflexivity | reflexivity | do 2 right; left; reflexivity]. }
  destruct (bool_decide (type m = SMS) || bool_decide (type m = VOICE)).
  2: { apply Hshape; [reflexivity | reflexivity | do 4 right; left; reflexivity]. }
  destruct (trustedPhoneNumbers d) as [| |[|p l]].
  1-3: apply Hshape; [reflexivity | reflexivity | do 3 right; left; reflexivity].
  destruct (negb (some_id m (p :: l))).
  - apply Hshape; [reflexivity | reflexivity | do 5 right; reflexivity].
  - apply Hshape; [reflexivity | reflexivity | do 4 right; left; reflexivity].
Qed.

(** For the device method the list of trusted phone numbers is never
    looked at: only the four general messages are possible. *)
Theorem processResendError_device (m : MFAMethod) (err : ResendFailure) :
  type m = DEVICE →
  err_msg (processResendError m err) = "No response received"
  ∨ err_msg (processResendError m err) = "Timeout"
  ∨ err_msg (processResendError m err) = "Bad request, no response data"
  ∨ err_msg (processResendError m err)
    = "Bad request, unknown cause with method 'Device'".
Proof.
  intros Hd. unfold processResendError, toString. rewrite Hd. simpl.
  repeat (match goal with
          | |- context [if ?b then _ else _] => destruct b
          | |- context [match ?x with _ => _ end] => destruct x
          end; simpl); auto.
Qed.

Lemma processResendError_device_timeout :
  err_msg (processResendError (update "device" 1)
             {| name := "AxiosError";
                response := Some {| err_status := 403; data := None |} |})
    = "No response received"
  ∨ err_msg (processResendError (update "device" 1)
               {| name := "AxiosError";
                  response := Some {| err_status := 403; data := None |} |}) = "Timeout"
  ∨ err_msg (processResendError (update "device" 1)
               {| name := "AxiosError";
                  response := Some {| err_status := 403; data := None |} |})
    = "Bad request, no response data"
  ∨ err_msg (processResendError (update "device" 1)
               {| name := "AxiosError";
                  response := Some {| err_status := 403; data := None |} |})
    = "Bad request, unknown cause with method 'Device'".
Proof.
  apply (processResendError_device (update "device" 1)). reflexivity.
Defined.

Lemma some_id_member (m : MFAMethod) (n : Z) (l : list TrustedPhoneNumber) :
  numberId m = Some n → Exists (λ p, id p = n) l → some_id m l = true.
Proof.
  intros Hn Hex. unfold some_id. rewrite Hn.
  induction Hex as [p l Hp | p l _ IH]; simpl.
  - rewrite bool_decide_eq_true_2 by congruence. reflexivity.
  - rewrite IH. apply orb_true_r.
Qed.

(** A 412 for a phone method whose number id is among the trusted numbers
    is not explained: the result is the general message. *)
Theorem processResendError_known_id
    (m : MFAMethod) (n : Z) (err : ResendFailure) (r : ErrorResponse)
    (d : ResponseData) (l : list TrustedPhoneNumber) :
  numberId m = Some n →
  name err = "AxiosError" →
  response err = Some r →
  err_status r = 412%Z →
  data r = Some d →
  trustedPhoneNumbers d = PhonesArray l →
  Exists (λ p, id p = n) l →
  err_msg (processResendError m err)
  = "Bad request, unknown cause with method " ++ toString m.
Proof.
  intros Hn Hname Hresp Hst Hd Hl Hex.
  unfold processResendError, is_response.
  rewrite Hresp, Hname, Hst, Hd, Hl. simpl.
  rewrite (some_id_member m n l Hn Hex).
  destruct l as [|p l']; [by apply Exists_nil in Hex|].
  destruct (bool_decide (type m = SMS) || bool_decide (type m = VOICE)); reflexivity.
Qed.

Lemma processResendError_known_id_3 :
  err_msg (processResendError (update "sms" 3) S3_failure)
  = "Bad request, unknown cause with method " ++ toString (update "sms" 3).
Proof.
  apply (processResendError_known_id (update "sms" 3) 3 S3_failure S3_response
           S3_data S3_phones); try reflexivity.
  apply Exists_cons_tl, Exists_cons_hd. reflexivity.
Defined.
End MFAMethodMore.

(** ** The library lock: framing, round trips and two processes *)

Section LockMore.
Import App.
Variable options : OptionValues.

Local Arguments lockFilePath : simpl never.

Lemma acquire_cases (pid : Z) (fs : FS) :
  (∃ c, fs !! lockFilePath options = Some c ∧ force options = false
        ∧ acquireLibraryLock options pid fs =
            (Throw (LibraryError ("Locked by PID " ++ c
               ++ ". Use --force (or FORCE env variable) to forcefully remove the lock")),
             fs))
  ∨ acquireLibraryLock options pid fs
    = (Ok (), <[lockFilePath options := pretty pid]> fs).
Proof.
  destruct (fs !! lockFilePath options) as [c|] eqn:Hc.
  - destruct (force options) eqn:Hf.
    + right. by apply acquire_forced.
    + left. exists c. repeat split; try done. by apply acquire_locked.
  - right. by apply acquire_free.
Qed.

Lemma release_cases (pid : Z) (fs : FS) :
  (∃ e, releaseLibraryLock options pid fs = (Throw e, fs) ∧ err_cls e = LibraryErrorC)
  ∨ (is_Some (fs !! lockFilePath options)
     ∧ releaseLibraryLock options pid fs = (Ok (), delete (lockFilePath options) fs)).
Proof.
  destruct (fs !! lockFilePath options) as [c|] eqn:Hc.
  - destruct (decide (c = pretty pid)) as [-> | Hne].
    + right. split; [eauto|]. by apply release_own.
    + destruct (force options) eqn:Hf.
      * right. split; [eauto|]. by apply (release_forced options pid fs c).
      * left. eexists. split; [by apply (release_foreign options pid fs c)|]. reflexivity.
  - left. eexists. split; [by apply release_missing|]. reflexivity.
Qed.

(** Acquiring and releasing the lock never touch another file. *)
Theorem lock_frame (pid : Z) (fs : FS) (p : string) :
  p ≠ lockFilePath options →
  (acquireLibraryLock options pid fs).2 !! p = fs !! p
  ∧ (releaseLibraryLock options pid fs).2 !! p = fs !! p.
Proof.
  intros Hp. split.
  - destruct (acquire_cases pid fs) as [(c & _ & _ & ->) | ->]; simpl; [done|].
    by apply lookup_insert_ne.
  - destruct (release_cases pid fs) as [(e & -> & _) | (_ & ->)]; simpl; [done|].
    by apply lookup_delete_ne.
Qed.

(** On a data dir without lock file, acquiring and then releasing succeeds
    and leaves the files exactly as they were. *)
Theorem acquire_release_roundtrip (pid : Z) (fs : FS) :
  fs !! lockFilePath options = None →
  ∃ fs1, acquireLibraryLock options pid fs = (Ok (), fs1)
         ∧ fs1 !! lockFilePath options = Some (pretty pid)
         ∧ releaseLibraryLock options pid fs1 = (Ok (), fs).
Proof.
  intros Hfree. exists (<[lockFilePath options := pretty pid]> fs).
  split; [by apply acquire_free|].
  split; [apply lookup_insert_eq|].
  rewrite (release_own options pid) by apply lookup_insert_eq.
  f_equal. rewrite delete_insert_eq. by apply delete_id.
Qed.

(** Once a process holds the lock, no process gets it without force, not
    even the holder itself: the attempt fails, names the holder and changes
    nothing. *)
Theorem acquire_excludes (holder other : Z) (fs fs1 : FS) :
  acquireLibraryLock options holder fs = (Ok (), fs1) →
  force options = false →
  acquireLibraryLock options other fs1 =
    (Throw (LibraryError ("Locked by PID " ++ pretty holder
       ++ ". Use --force (or FORCE env variable) to forcefully remove the lock")),
     fs1).
Proof.
  intros Hacq Hf.
  destruct (acquire_cases holder fs) as [(c & _ & _ & Hthrow) | Hok]; [congruence|].
  rewrite Hok in Hacq. injection Hacq as <-.
  apply acquire_locked; [apply lookup_insert_eq | exact Hf].
Qed.

(** A lock that was released cannot be released again: the second release
    fails and changes nothing. *)
Theorem release_twice (pid : Z) (fs fs1 : FS) :
  releaseLibraryLock options pid fs = (Ok (), fs1) →
  releaseLibraryLock options pid fs1 =
    (Throw (LibraryError "Unable to release library lock, no lock exists"), fs1).
Proof.
  intros Hrel.
  destruct (release_cases pid fs) as [(e & Hthrow & _) | (_ & Hok)]; [congruence|].
  rewrite Hok in Hrel. injection Hrel as <-.
  apply release_missing. apply lookup_delete_eq.
Qed.
End LockMore.

Section LockTakeover.
Import App.
(** Two processes on the same data dir; the second one was started with
    force, the first one without. *)
Variables owner intruder : OptionValues.
Hypothesis same_dir : dataDir owner = dataDir intruder.
Hypothesis owner_plain : force owner = false.
Hypothesis intruder_forced : force intruder = true.

Local Arguments lockFilePath : simpl never.

(** A forced start takes the lock over, and the process that held it can
    then not release it any more: its release fails, names the new holder
    and leaves the lock of the new holder in place. *)
Theorem forced_takeover (a b : Z) (fs fs1 : FS) :
  a ≠ b →
  acquireLibraryLock owner a fs = (Ok (), fs1) →
  ∃ fs2, acquireLibraryLock intruder b fs1 = (Ok (), fs2)
         ∧ fs2 !! lockFilePath owner = Some (pretty b)
         ∧ releaseLibraryLock owner a fs2 =
             (Throw (LibraryError ("Locked by PID " ++ pretty b
                ++ ", cannot release. Use --force (or FORCE env variable) to forcefully remove the lock")),
              fs2).
Proof.
  intros Hab Hacq.
  assert (Hpath : lockFilePath intruder = lockFilePath owner).
  { unfold lockFilePath. by rewrite same_dir. }
  exists (<[lockFilePath owner := pretty b]> fs1).
  split; [rewrite <- Hpath; by apply acquire_forced|].
  split; [apply lookup_insert_eq|].
  apply release_foreign; [apply lookup_insert_eq | | exact owner_plain].
  intros Heq. apply (inj pretty) in Heq. congruence.
Qed.
End LockTakeover.

Lemma lock_frame_asset :
  (App.acquireLibraryLock Inputs.plain_options 77 Inputs.foreign_lock).2
    !! "/opt/icloud-photos-library/_All-Photos/AQIDBAUGBwgJ.jpeg"
  = Inputs.foreign_lock !! "/opt/icloud-photos-library/_All-Photos/AQIDBAUGBwgJ.jpeg"
  ∧ (App.releaseLibraryLock Inputs.plain_options 77 Inputs.foreign_lock).2
      !! "/opt/icloud-photos-library/_All-Photos/AQIDBAUGBwgJ.jpeg"
    = Inputs.foreign_lock !! "/opt/icloud-photos-library/_All-Photos/AQIDBAUGBwgJ.jpeg".
Proof.
  apply (lock_frame Inputs.plain_options 77 Inputs.foreign_lock).
  vm_compute. discriminate.
Defined.

Lemma acquire_release_roundtrip_library :
  ∃ fs1, App.acquireLibraryLock Inputs.plain_options 77 Inputs.library = (Ok (), fs1)
         ∧ fs1 !! App.lockFilePath Inputs.plain_options = Some (pretty 77%Z)
         ∧ App.releaseLibraryLock Inputs.plain_options 77 fs1 = (Ok (), Inputs.library).
Proof.
  apply (acquire_release_roundtrip Inputs.plain_options 77 Inputs.library).
  vm_compute. reflexivity.
Defined.

Lemma acquire_excludes_second :
  App.acquireLibraryLock Inputs.plain_options 4242 Inputs.own_lock =
    (Throw (LibraryError ("Locked by PID " ++ pretty 77%Z
       ++ ". Use --force (or FORCE env variable) to forcefully remove the lock")),
     Inputs.own_lock).
Proof.
  apply (acquire_excludes Inputs.plain_options 77 4242 ∅ Inputs.own_lock).
  - vm_compute. reflexivity.
  - reflexivity.
Defined.

Lemma release_twice_own :
  App.releaseLibraryLock Inputs.plain_options 77 ∅ =
    (Throw (LibraryError "Unable to release library lock, no lock exists"), ∅).
Proof.
  apply (release_twice Inputs.plain_options 77 Inputs.own_lock ∅).
  vm_compute. reflexivity.
Defined.

Lemma forced_takeover_4242 :
  ∃ fs2, App.acquireLibraryLock Inputs.forced_options 4242 Inputs.own_lock = (Ok (), fs2)
         ∧ fs2 !! App.lockFilePath Inputs.plain_options = Some (pretty 4242%Z)
         ∧ App.releaseLibraryLock Inputs.plain_options 77 fs2 =
             (Throw (LibraryError ("Locked by PID " ++ pretty 4242%Z
                ++ ", cannot release. Use --force (or FORCE env variable) to forcefully remove the lock")),
              fs2).
Proof.
  apply (forced_takeover Inputs.plain_options Inputs.forced_options
           eq_refl eq_refl eq_refl 77 4242 ∅ Inputs.own_lock).
  - discriminate.
  - vm_compute. reflexivity.
Defined.

(** ** The sync app and the archive app: every run *)

Section RunsMore.
Import App Apps2.
Variables Asset Album : Type.
Variable options : OptionValues.
Variable pid : Z.
Variable authenticate : M FS ().
Variable sync : M FS (list Asset * list Album).
Variable archivePath : string → list Asset → M FS ().

Local Arguments lockFilePath : simpl never.
Local Arguments releaseLibraryLock : simpl never.
Local Arguments acquireLibraryLock : simpl never.

Local Ltac run_app :=
  unfold ArchiveApp_run, SyncApp_run, iCloudApp_run, clean, ArchiveApp_clean,
    SyncApp_clean, iCloudApp_clean, try_finally, try_catch, logged, note, throw,
    mbind, M_bind, mret, M_ret; simpl.

Local Ltac split_outcomes :=
  repeat (match goal with
          | |- context [acquireLibraryLock ?o ?p ?f] =>
              destruct (acquireLibraryLock o p f) as [[[]|?] ?]; simpl
          | |- context [releaseLibraryLock ?o ?p ?f] =>
              destruct (releaseLibraryLock o p f) as [[[]|?] ?]; simpl
          | |- context [authenticate ?f] =>
              destruct (authenticate f) as [[[]|?] ?]; simpl
          | |- context [sync ?f] =>
              destruct (sync f) as [[[? ?]|?] ?]; simpl
          | |- context [archivePath ?a ?b ?f] =>
              destruct (archivePath a b f) as [[[]|?] ?]; simpl
          end).

Local Ltac members :=
  intros;
  repeat (match goal with
          | H : _ ∈ (_ :: _) |- _ => apply elem_of_cons in H as [H|H]; [try discriminate H|]
          | H : _ ∈ [] |- _ => by apply elem_of_nil in H
          end);
  simplify_eq;
  repeat setoid_rewrite elem_of_cons; repeat setoid_rewrite elem_of_nil; naive_solver.

(** Whatever the lock and the collaborators do, a run of the archive app
    releases the lock exactly once, calls [archivePath] only with its own
    path and with the assets of a successful sync, syncs only after a
    successful authentication and authenticates only after the lock was
    acquired. *)
Theorem ArchiveApp_run_order (path : string) (w : World Asset Album) :
  ∃ (r : Result ()) (fs : FS) (new : list (Call Asset Album)),
    ArchiveApp_run Asset Album options pid authenticate sync archivePath ArchiveAppC path w
      = (r, {| files := fs; calls := (calls w ++ new)%list |})
    ∧ length (filter (λ c, is_release c = true) new) = 1%nat
    ∧ (∀ p l ra, CArchivePath p l ra ∈ new →
         p = path ∧ ∃ albums, CSync (Ok (l, albums)) ∈ new)
    ∧ (∀ rs, CSync rs ∈ new → CAuthenticate (Ok ()) ∈ new)
    ∧ (∀ ra, CAuthenticate ra ∈ new → CAcquireLibraryLock (Ok ()) ∈ new)
    ∧ (r = Ok () → ∃ l, CArchivePath path l (Ok ()) ∈ new).
Proof.
  run_app. split_outcomes; rewrite <- ?app_assoc; simpl;
    eexists _, _, _; (split; [reflexivity|]); (split; [reflexivity|]);
    (split; [members|]); (split; [members|]); (split; [members|]); members.
Qed.
End RunsMore.

Section RunsBlocked.
Import App Apps2.
Variables Asset Album : Type.
Variable options : OptionValues.
Variable pid : Z.
Variable authenticate : M FS ().
Variable sync : M FS (list Asset * list Album).
Variable archivePath : string → list Asset → M FS ().

Local Arguments lockFilePath : simpl never.
Local Arguments releaseLibraryLock : simpl never.
Local Arguments acquireLibraryLock : simpl never.

Local Ltac run_app :=
  unfold ArchiveApp_run, SyncApp_run, iCloudApp_run, clean, ArchiveApp_clean,
    SyncApp_clean, iCloudApp_clean, try_finally, try_catch, logged, note, throw,
    mbind, M_bind, mret, M_ret; simpl.

(** While another process holds the lock and force is not set, a run of the
    archive app fails without calling a collaborator and without changing
    a file. *)
Theorem ArchiveApp_run_blocked (path : string) (w : World Asset Album) (c : string) :
  files w !! lockFilePath options = Some c →
  c ≠ pretty pid →
  force options = false →
  ∃ (e : iCPSError) (new : list (Call Asset Album)),
    ArchiveApp_run Asset Album options pid authenticate sync archivePath ArchiveAppC path w
      = (Throw e, {| files := files w; calls := (calls w ++ new)%list |})
    ∧ filter (λ c, is_collaborator c = true) new = [].
Proof.
  intros Hc Hne Hf. run_app.
  rewrite (acquire_locked options pid (files w) c Hc Hf). simpl.
  rewrite (release_foreign options pid (files w) c Hc Hne Hf). simpl.
  rewrite <- !app_assoc. simpl.
  eexists _, _. split; reflexivity.
Qed.

(** A lock file that holds the PID of this very process does not let the
    run start either, when force is not set: the run fails with the error
    of the refused lock, wrapped as for any failure; but its clean-up then
    removes the lock file. *)
Theorem ArchiveApp_run_stale_lock (path : string) (w : World Asset Album) :
  files w !! lockFilePath options = Some (pretty pid) →
  force options = false →
  ∃ new : list (Call Asset Album),
    ArchiveApp_run Asset Album options pid authenticate sync archivePath ArchiveAppC path w
      = (Throw (archive_failed path (sync_failed
           (addCause (LibraryError "Unable to acquire lock")
              (LibraryError ("Locked by PID " ++ pretty pid
                 ++ ". Use --force (or FORCE env variable) to forcefully remove the lock"))))),
         {| files := delete (lockFilePath options) (files w);
            calls := (calls w ++ new)%list |})
    ∧ filter (λ c, is_collaborator c = true) new = [].
Proof.
  intros Hc Hf. run_app.
  rewrite (acquire_locked options pid (files w) _ Hc Hf). simpl.
  rewrite (release_own options pid (files w) Hc). simpl.
  rewrite <- !app_assoc. simpl.
  eexists. split; reflexivity.
Qed.

(** When [SyncApp.run] runs as the inherited part of another class, it
    leaves the clean-up to that class: it does not release the lock, and it
    returns the result of the sync exactly when the sync succeeded. *)
Theorem SyncApp_run_inherited (self : AppClass) (w : World Asset Album) :
  self ≠ SyncAppC →
  ∃ (r : Result (list Asset * list Album)) (fs : FS) (new : list (Call Asset Album)),
    SyncApp_run Asset Album options pid authenticate sync self w
      = (r, {| files := fs; calls := (calls w ++ new)%list |})
    ∧ filter (λ c, is_release c = true) new = []
    ∧ (∀ res, r = Ok res ↔ CSync (Ok res) ∈ new).
Proof.
  intros Hself. run_app. rewrite (bool_decide_eq_false_2 _ Hself). simpl.
  destruct (acquireLibraryLock options pid (files w)) as [[[]|?] ?]; simpl;
    [destruct (authenticate _) as [[[]|?] ?]; simpl;
       [destruct (sync _) as [[[? ?]|?] ?]; simpl|]|];
    rewrite <- ?app_assoc; simpl;
    eexists _, _, _; (split; [reflexivity|]); (split; [reflexivity|]);
    intros res; split; intros H;
    repeat (match goal with
            | H : _ ∈ (_ :: _) |- _ => apply elem_of_cons in H as [H|H]; [try discriminate H|]
            | H : _ ∈ [] |- _ => by apply elem_of_nil in H
            end);
    simplify_eq; try discriminate;
    repeat setoid_rewrite elem_of_cons; naive_solver.
Qed.
End RunsBlocked.

Section SyncFacts.
Import App Apps2.
Variables Asset Album : Type.
Variable options : OptionValues.
Variable pid : Z.
Variable authenticate : M FS ().
Variable sync : M FS (list Asset * list Album).
Variable next : option string.

Hypothesis authenticate_lock : ∀ fs : FS,
  (authenticate fs).2 !! lockFilePath options = fs !! lockFilePath options.
Hypothesis sync_lock : ∀ fs : FS,
  (sync fs).2 !! lockFilePath options = fs !! lockFilePath options.

Local Arguments lockFilePath : simpl never.
Local Arguments releaseLibraryLock : simpl never.
Local Arguments acquireLibraryLock : simpl never.

Local Ltac run_app :=
  unfold SyncApp_run, iCloudApp_run, clean, SyncApp_clean, iCloudApp_clean,
    try_finally, try_catch, logged, note, throw, mbind, M_bind, mret, M_ret; simpl.

Lemma SyncApp_run_shape (w : World Asset Album) :
  files w !! lockFilePath options = None ∨ force options = true →
  ∃ (r : Result (list Asset * list Album)) (fs : FS)
    (stages : list (Call Asset Album)),
    SyncApp_run Asset Album options pid authenticate sync SyncAppC w
      = (r, {| files := fs;
               calls := (calls w
                 ++ [CRegisterHandlers; CRegisterHandlers; CAcquireLibraryLock (Ok ())]
                 ++ stages
                 ++ [CRemoveHandlers; CReleaseLibraryLock (Ok ()); CRemoveHandlers])%list |})
    ∧ fs !! lockFilePath options = None
    ∧ ((∃ e, stages = [CAuthenticate (Throw e)]
             ∧ r = Throw (sync_failed (authentication_failed e)))
       ∨ (∃ e, stages = [CAuthenticate (Ok ()); CSync (Throw e)]
               ∧ r = Throw (sync_failed e))
       ∨ (∃ res, stages = [CAuthenticate (Ok ()); CSync (Ok res)] ∧ r = Ok res)).
Proof.
  intros Hfree.
  set (fs1 := <[lockFilePath options:=pretty pid]> (files w)).
  assert (Hacq1 : acquireLibraryLock options pid (files w) = (Ok (), fs1)).
  { destruct Hfree; [by apply acquire_free | by apply acquire_forced]. }
  assert (Hown : fs1 !! lockFilePath options = Some (pretty pid)).
  { apply lookup_insert_eq. }
  run_app. rewrite Hacq1. simpl.
  pose proof (authenticate_lock fs1) as Hl2.
  destruct (authenticate fs1) as [[[]|e] fs2] eqn:Hauth; simpl in *.
  - pose proof (sync_lock fs2) as Hl3.
    destruct (sync fs2) as [[res|e] fs3] eqn:Hsync; simpl in *;
      assert (Hown3 : fs3 !! lockFilePath options = Some (pretty pid)) by congruence;
      rewrite (release_own options pid fs3 Hown3); simpl;
      rewrite <- !app_assoc; simpl.
    + eexists _, _, [CAuthenticate (Ok ()); CSync (Ok res)].
      split; [reflexivity|]. split; [apply lookup_delete_eq|]. right; right; eauto.
    + eexists _, _, [CAuthenticate (Ok ()); CSync (Throw e)].
      split; [reflexivity|]. split; [apply lookup_delete_eq|]. right; left; eauto.
  - assert (Hown2 : fs2 !! lockFilePath options = Some (pretty pid)) by congruence.
    rewrite (release_own options pid fs2 Hown2). simpl.
    rewrite <- !app_assoc. simpl.
    eexists _, _, [CAuthenticate (Throw e)].
    split; [reflexivity|]. split; [apply lookup_delete_eq|]. left; eauto.
Qed.

(** When the lock can be acquired, a run of the sync app returns what the
    sync engine returned, or throws a [SyncError] around the failure of the
    authentication or of the sync; the sync engine runs only after a
    successful authentication, and the lock file is gone at the end in
    every case. *)
Theorem SyncApp_run_acquired (w : World Asset Album) :
  files w !! lockFilePath options = None ∨ force options = true →
  ∃ (r : Result (list Asset * list Album)) (fs : FS)
    (stages : list (Call Asset Album)),
    SyncApp_run Asset Album options pid authenticate sync SyncAppC w
      = (r, {| files := fs;
               calls := (calls w
                 ++ [CRegisterHandlers; CRegisterHandlers; CAcquireLibraryLock (Ok ())]
                 ++ stages
                 ++ [CRemoveHandlers; CReleaseLibraryLock (Ok ()); CRemoveHandlers])%list |})
    ∧ fs !! lockFilePath options = None
    ∧ ((∃ e, stages = [CAuthenticate (Throw e)]
             ∧ r = Throw (sync_failed (authentication_failed e)))
       ∨ (∃ e, stages = [CAuthenticate (Ok ()); CSync (Throw e)]
               ∧ r = Throw (sync_failed e))
       ∨ (∃ res, stages = [CAuthenticate (Ok ()); CSync (Ok res)] ∧ r = Ok res)).
Proof. exact (SyncApp_run_shape w). Qed.

(** A scheduled sync that could take the lock gives it back, whether the
    sync succeeded or not: the next scheduled sync finds no lock file. *)
Theorem performScheduledSync_releases (xw : XWorld Asset Album) :
  xfiles xw !! lockFilePath options = None ∨ force options = true →
  ∃ xw', performScheduledSync Asset Album options pid authenticate sync next xw
           = (Ok (), xw')
         ∧ xfiles xw' !! lockFilePath options = None.
Proof.
  intros Hfree.
  destruct (SyncApp_run_shape {| files := xfiles xw; calls := [] |} Hfree)
    as (r & fs & stages & Hrun & Hgone & _).
  unfold performScheduledSync, try_catch, lift, xnote, mbind, M_bind. simpl in *.
  rewrite Hrun. destruct r as [res|e]; simpl; eexists; (split; [reflexivity|]); exact Hgone.
Qed.
End SyncFacts.

Section DaemonFacts.
Import App Apps2.
Variables Asset Album : Type.
Variable options : OptionValues.
Variable pid : Z.
Variable authenticate : M FS ().
Variable sync : M FS (list Asset * list Album).
Variable next : option string.

(** A scheduled sync never throws: when the sync app succeeds [DONE] is
    emitted, and when it throws the error goes to the error handler as a
    [DaemonAppError] and [RETRY] is emitted; both events carry the time of
    the next run. *)
Theorem performScheduledSync_never_throws (xw : XWorld Asset Album) :
  ∃ (w : World Asset Album) (tail : list (XCall Asset Album)),
    performScheduledSync Asset Album options pid authenticate sync next xw
      = (Ok (), {| xfiles := files w;
                   xcalls := (xcalls xw ++ map Base (calls w) ++ tail)%list |})
    ∧ ((∃ res, SyncApp_run Asset Album options pid authenticate sync SyncAppC
                 {| files := xfiles xw; calls := [] |} = (Ok res, w)
               ∧ tail = [CEmitDone next])
       ∨ (∃ e, SyncApp_run Asset Album options pid authenticate sync SyncAppC
                 {| files := xfiles xw; calls := [] |} = (Throw e, w)
               ∧ tail = [CEmitDaemonAppError e; CEmitRetry next])).
Proof.
  unfold performScheduledSync, try_catch, lift, xnote, mbind, M_bind. simpl.
  destruct (SyncApp_run Asset Album options pid authenticate sync SyncAppC
              {| files := xfiles xw; calls := [] |}) as [[res|e] w]; simpl;
    exists w; eexists; rewrite <- ?app_assoc; simpl; (split; [reflexivity|]).
  - left. eauto.
  - right. eauto.
Qed.
End DaemonFacts.

Section TokenFacts.
Import App Apps2.
Variables Asset Album : Type.
Variable options : OptionValues.
Variable pid : Z.
Variable authenticate : M FS ().
Variable validateAccountTokens : M FS ().
Variable trustToken : string.

Hypothesis authenticate_lock : ∀ fs : FS,
  (authenticate fs).2 !! lockFilePath options = fs !! lockFilePath options.
Hypothesis validate_lock : ∀ fs : FS,
  (validateAccountTokens fs).2 !! lockFilePath options = fs !! lockFilePath options.

Local Arguments lockFilePath : simpl never.
Local Arguments releaseLibraryLock : simpl never.
Local Arguments acquireLibraryLock : simpl never.

(** When the lock can be acquired, a run of the token app emits the trust
    token exactly when the authentication and the validation of the tokens
    both succeeded, and then returns; a failure of either is thrown as a
    [TokenError] and no token is emitted; the lock file is gone at the end
    in every case. *)
Theorem TokenApp_run_acquired (xw : XWorld Asset Album) :
  xfiles xw !! lockFilePath options = None ∨ force options = true →
  ∃ (r : Result ()) (fs : FS) (stages : list (XCall Asset Album)),
    TokenApp_run Asset Album options pid authenticate validateAccountTokens trustToken
      TokenAppC xw
      = (r, {| xfiles := fs;
               xcalls := (xcalls xw
                 ++ [Base CRegisterHandlers; Base (CAcquireLibraryLock (Ok ()))]
                 ++ stages
                 ++ [Base CRemoveHandlers; Base (CReleaseLibraryLock (Ok ()))])%list |})
    ∧ fs !! lockFilePath options = None
    ∧ ((∃ e, stages = [Base (CAuthenticate (Throw e))]
             ∧ r = Throw (token_failed (authentication_failed e)))
       ∨ (∃ e, stages = [Base (CAuthenticate (Ok ())); CValidateAccountTokens (Throw e)]
               ∧ r = Throw (token_failed e))
       ∨ (stages = [Base (CAuthenticate (Ok ())); CValidateAccountTokens (Ok ());
                    CEmitToken trustToken]
          ∧ r = Ok ())).
Proof.
  intros Hfree.
  set (fs1 := <[lockFilePath options:=pretty pid]> (xfiles xw)).
  assert (Hacq1 : acquireLibraryLock options pid (xfiles xw) = (Ok (), fs1)).
  { destruct Hfree; [by apply acquire_free | by apply acquire_forced]. }
  assert (Hown : fs1 !! lockFilePath options = Some (pretty pid)).
  { apply lookup_insert_eq. }
  unfold TokenApp_run, lift, xlogged, xnote, iCloudApp_run, clean, iCloudApp_clean,
    try_finally, try_catch, logged, note, throw, mbind, M_bind, mret, M_ret. simpl.
  rewrite Hacq1. simpl.
  pose proof (authenticate_lock fs1) as Hl2.
  destruct (authenticate fs1) as [[[]|e] fs2] eqn:Hauth; simpl in *.
  - pose proof (validate_lock fs2) as Hl3.
    destruct (validateAccountTokens fs2) as [[[]|e] fs3] eqn:Hval; simpl in *;
      assert (Hown3 : fs3 !! lockFilePath options = Some (pretty pid)) by congruence;
      rewrite (release_own options pid fs3 Hown3); simpl;
      rewrite <- !app_assoc; simpl.
    + eexists _, _, [Base (CAuthenticate (Ok ())); CValidateAccountTokens (Ok ());
                     CEmitToken trustToken].
      split; [reflexivity|]. split; [apply lookup_delete_eq|]. right; right; eauto.
    + eexists _, _, [Base (CAuthenticate (Ok ())); CValidateAccountTokens (Throw e)].
      split; [reflexivity|]. split; [apply lookup_delete_eq|]. right; left; eauto.
  - assert (Hown2 : fs2 !! lockFilePath options = Some (pretty pid)) by congruence.
    rewrite (release_own options pid fs2 Hown2). simpl.
    rewrite <- !app_assoc. simpl.
    eexists _, _, [Base (CAuthenticate (Throw e))].
    split; [reflexivity|]. split; [apply lookup_delete_eq|]. left; eauto.
Qed.
End TokenFacts.

Lemma ArchiveApp_run_blocked_4242 :
  ∃ (e : iCPSError) (new : list (App.Call string string)),
    App.ArchiveApp_run string string Inputs.plain_options 77 Inputs.authenticate_ok
      Inputs.sync_ok Inputs.archivePath_ok App.ArchiveAppC Inputs.archive_path
      Inputs.locked_world
      = (Throw e, {| App.files := App.files Inputs.locked_world;
                     App.calls := (App.calls Inputs.locked_world ++ new)%list |})
    ∧ filter (λ c, Apps2.is_collaborator c = true) new = [].
Proof.
  apply (ArchiveApp_run_blocked string string Inputs.plain_options 77
           Inputs.authenticate_ok Inputs.sync_ok Inputs.archivePath_ok
           Inputs.archive_path Inputs.locked_world "4242").
  - vm_compute. reflexivity.
  - vm_compute. discriminate.
  - reflexivity.
Defined.

Lemma ArchiveApp_run_stale_lock_77 :
  ∃ new : list (App.Call string string),
    App.ArchiveApp_run string string Inputs.plain_options 77 Inputs.authenticate_ok
      Inputs.sync_ok Inputs.archivePath_ok App.ArchiveAppC Inputs.archive_path
      Inputs.stale_world
      = (Throw (App.archive_failed Inputs.archive_path (App.sync_failed
           (addCause (LibraryError "Unable to acquire lock")
              (LibraryError ("Locked by PID " ++ pretty 77%Z
                 ++ ". Use --force (or FORCE env variable) to forcefully remove the lock"))))),
         {| App.files := delete (App.lockFilePath Inputs.plain_options)
                           (App.files Inputs.stale_world);
            App.calls := (App.calls Inputs.stale_world ++ new)%list |})
    ∧ filter (λ c, Apps2.is_collaborator c = true) new = [].
Proof.
  apply (ArchiveApp_run_stale_lock string string Inputs.plain_options 77
           Inputs.authenticate_ok Inputs.sync_ok Inputs.archivePath_ok
           Inputs.archive_path Inputs.stale_world).
  - vm_compute. reflexivity.
  - reflexivity.
Defined.

Lemma SyncApp_run_inherited_archive :
  ∃ (r : Result (list string * list string)) (fs : gmap string string)
    (new : list (App.Call string string)),
    App.SyncApp_run string string Inputs.plain_options 77 Inputs.authenticate_ok
      Inputs.sync_ok App.ArchiveAppC Inputs.fresh_world
      = (r, {| App.files := fs;
               App.calls := (App.calls Inputs.fresh_world ++ new)%list |})
    ∧ filter (λ c, Apps2.is_release c = true) new = []
    ∧ (∀ res, r = Ok res ↔ App.CSync (Ok res) ∈ new).
Proof.
  apply (SyncApp_run_inherited string string Inputs.plain_options 77
           Inputs.authenticate_ok Inputs.sync_ok App.ArchiveAppC Inputs.fresh_world).
  discriminate.
Defined.

Lemma SyncApp_run_acquired_fresh :
  ∃ (r : Result (list string * list string)) (fs : gmap string string)
    (stages : list (App.Call string string)),
    App.SyncApp_run string string Inputs.plain_options 77 Inputs.authenticate_ok
      Inputs.sync_ok App.SyncAppC Inputs.fresh_world
      = (r, {| App.files := fs;
               App.calls := (App.calls Inputs.fresh_world
                 ++ [App.CRegisterHandlers; App.CRegisterHandlers;
                     App.CAcquireLibraryLock (Ok ())]
                 ++ stages
                 ++ [App.CRemoveHandlers; App.CReleaseLibraryLock (Ok ());
                     App.CRemoveHandlers])%list |})
    ∧ fs !! App.lockFilePath Inputs.plain_options = None
    ∧ ((∃ e, stages = [App.CAuthenticate (Throw e)]
             ∧ r = Throw (App.sync_failed (App.authentication_failed e)))
       ∨ (∃ e, stages = [App.CAuthenticate (Ok ()); App.CSync (Throw e)]
               ∧ r = Throw (App.sync_failed e))
       ∨ (∃ res, stages = [App.CAuthenticate (Ok ()); App.CSync (Ok res)] ∧ r = Ok res)).
Proof.
  apply (SyncApp_run_acquired string string Inputs.plain_options 77
           Inputs.authenticate_ok Inputs.sync_ok).
  - intros fs. reflexivity.
  - intros fs. apply lookup_insert_ne. vm_compute. discriminate.
  - left. vm_compute. reflexivity.
Defined.

Lemma performScheduledSync_releases_fresh :
  ∃ xw', Apps2.performScheduledSync string string Inputs.plain_options 77
           Inputs.authenticate_ok Inputs.sync_failing (Some "2022-12-24T02:00:00")
           Inputs.fresh_xworld = (Ok (), xw')
         ∧ Apps2.xfiles xw' !! App.lockFilePath Inputs.plain_options = None.
Proof.
  apply (performScheduledSync_releases string string Inputs.plain_options 77
           Inputs.authenticate_ok Inputs.sync_failing (Some "2022-12-24T02:00:00")).
  - intros fs. reflexivity.
  - intros fs. reflexivity.
  - left. vm_compute. reflexivity.
Defined.

Lemma TokenApp_run_acquired_fresh :
  ∃ (r : Result ()) (fs : gmap string string)
    (stages : list (Apps2.XCall string string)),
    Apps2.TokenApp_run string string Inputs.plain_options 77 Inputs.authenticate_ok
      Inputs.authenticate_ok "HSARMTKNSRVXWFla" App.TokenAppC Inputs.fresh_xworld
      = (r, {| Apps2.xfiles := fs;
               Apps2.xcalls := (Apps2.xcalls Inputs.fresh_xworld
                 ++ [Apps2.Base App.CRegisterHandlers;
                     Apps2.Base (App.CAcquireLibraryLock (Ok ()))]
                 ++ stages
                 ++ [Apps2.Base App.CRemoveHandlers;
                     Apps2.Base (App.CReleaseLibraryLock (Ok ()))])%list |})
    ∧ fs !! App.lockFilePath Inputs.plain_options = None
    ∧ ((∃ e, stages = [Apps2.Base (App.CAuthenticate (Throw e))]
             ∧ r = Throw (Apps2.token_failed (App.authentication_failed e)))
       ∨ (∃ e, stages = [Apps2.Base (App.CAuthenticate (Ok ()));
                         Apps2.CValidateAccountTokens (Throw e)]
               ∧ r = Throw (Apps2.token_failed e))
       ∨ (stages = [Apps2.Base (App.CAuthenticate (Ok ()));
                    Apps2.CValidateAccountTokens (Ok ());
                    Apps2.CEmitToken "HSARMTKNSRVXWFla"]
          ∧ r = Ok ())).
Proof.
  apply (TokenApp_run_acquired string string Inputs.plain_options 77
           Inputs.authenticate_ok Inputs.authenticate_ok "HSARMTKNSRVXWFla").
  - intros fs. reflexivity.
  - intros fs. reflexivity.
  - left. vm_compute. reflexivity.
Defined.

(** ** The error handler: what is printed *)

Section HandleMore.
Import Handler.
Variable getDescription : iCPSError → string.
Variable randomUUID : string.
Variable options : App.OptionValues.
Variable h : ErrorHandler.
Variable err : iCPSError.

Local Abbreviation run := (handle getDescription randomUUID (Ok ()) h err []).

(** On a handler built from the options that has a listener for [error],
    and when sending the report does not fail, every handled error is
    emitted exactly once, as [warn] iff its severity is [WARN] and as
    [error] otherwise. A fatal error that is not an interrupt is printed
    with an error code: the id of the report when crash reporting is
    enabled, and otherwise the hint to enable it; every other error is
    printed with its plain description. *)
Theorem handle_prints_once :
  btClient h = btClient (new_ErrorHandler options) →
  has_listener h ERROR_EVENT = true →
  filter (λ e, is_emit e = true) run.2 =
    [Emit (if bool_decide (err_sev err = WARN) then WARN_EVENT else ERROR_EVENT)
          (getDescription err
           ++ (if bool_decide (err_sev err = FATAL ∧ err_cls err ≠ InterruptErrorC)
               then " (Error Code: "
                    ++ (if App.enableCrashReporting options then randomUUID
                        else "No error code! Pelase enable crash reporting!")
                    ++ ")"
               else ""))].
Proof.
  intros Hbt Hl.
  assert (Hempty : ∀ s : string, s = s ++ "").
  { induction s as [|a s IH]; [reflexivity|].
    change (String a s = String a (s ++ "")). by rewrite <- IH. }
  unfold handle, reportError, emit, tell, outcome, throw, mbind, M_bind, mret, M_ret.
  rewrite Hbt. unfold new_ErrorHandler. cbn [btClient].
  change (String.eqb WARN_EVENT "error") with false.
  change (String.eqb ERROR_EVENT "error") with true.
  rewrite Hl.
  destruct err as [cls sev msg cause ctx]. simpl.
  destruct sev, (App.enableCrashReporting options),
    (decide (cls = InterruptErrorC)) as [->|Hc];
    simpl; try (rewrite (bool_decide_eq_false_2 (cls = InterruptErrorC) Hc)); simpl;
    try (rewrite (bool_decide_eq_true_2 (FATAL = FATAL ∧ cls ≠ InterruptErrorC))
           by (split; done));
    try (rewrite (bool_decide_eq_false_2 (_ ∧ _)) by (intros [? ?]; done));
    rewrite <- ?Hempty; reflexivity.
Qed.
End HandleMore.

Lemma handle_prints_once_cli :
  filter (λ e, Handler.is_emit e = true)
    (Handler.handle err_msg "6a1f" (Ok ()) Inputs.cli_handler
       (LibraryError "Unable to acquire lock") []).2 =
    [Handler.Emit
       (if bool_decide (err_sev (LibraryError "Unable to acquire lock") = WARN)
        then Handler.WARN_EVENT else Handler.ERROR_EVENT)
       (err_msg (LibraryError "Unable to acquire lock")
        ++ (if bool_decide (err_sev (LibraryError "Unable to acquire lock") = FATAL
                            ∧ err_cls (LibraryError "Unable to acquire lock")
                              ≠ InterruptErrorC)
            then " (Error Code: "
                 ++ (if App.enableCrashReporting Inputs.reporting_options then "6a1f"
                     else "No error code! Pelase enable crash reporting!")
                 ++ ")"
            else ""))].
Proof.
  apply (handle_prints_once err_msg "6a1f" Inputs.reporting_options
           Inputs.cli_handler (LibraryError "Unable to acquire lock")).
  - reflexivity.
  - reflexivity.
Defined.

(** ** Scrubbing: the array helpers *)

Section ArrayFacts.
Import Handler.

Lemma findIndex_ge (x : string) (arr : list (option string)) :
  (-1 ≤ findIndex x arr)%Z.
Proof.
  induction arr as [|v arr IH]; simpl; [lia|].
  repeat case_bool_decide; lia.
Qed.

Lemma findIndex_lt (x : string) (arr : list (option string)) :
  (findIndex x arr < Z.of_nat (length arr))%Z.
Proof.
  induction arr as [|v arr IH]; simpl; [lia|].
  repeat case_bool_decide; lia.
Qed.

Lemma findIndex_none (x : string) (arr : list (option string)) :
  findIndex x arr = (-1)%Z ↔ Some x ∉ arr.
Proof.
  induction arr as [|v arr IH]; simpl.
  - split; [intros _; apply not_elem_of_nil | reflexivity].
  - rewrite not_elem_of_cons. pose proof (findIndex_ge x arr) as Hge.
    destruct (decide (v = Some x)) as [-> | Hv].
    + rewrite bool_decide_eq_true_2 by done. split; [discriminate | intros [H _]; done].
    + rewrite bool_decide_eq_false_2 by done.
      destruct (decide (findIndex x arr = (-1)%Z)) as [He | He].
      * rewrite bool_decide_eq_true_2 by done.
        split; [intros _; split; [congruence | by apply IH] | done].
      * rewrite bool_decide_eq_false_2 by done.
        split; [lia | intros [_ H]; apply IH in H; done].
Qed.

Lemma findIndex_found (x : string) (arr : list (option string)) :
  findIndex x arr ≠ (-1)%Z →
  arr !! Z.to_nat (findIndex x arr) = Some (Some x)
  ∧ ∀ j, (j < Z.to_nat (findIndex x arr))%nat → arr !! j ≠ Some (Some x).
Proof.
  induction arr as [|v arr IH]; simpl; [done|].
  pose proof (findIndex_ge x arr) as Hge.
  destruct (decide (v = Some x)) as [-> | Hv].
  - rewrite bool_decide_eq_true_2 by done. intros _.
    split; [reflexivity | intros j Hj; simpl in Hj; lia].
  - rewrite bool_decide_eq_false_2 by done.
    destruct (decide (findIndex x arr = (-1)%Z)) as [He | He].
    + rewrite bool_decide_eq_true_2 by done. done.
    + rewrite bool_decide_eq_false_2 by done. intros _.
      destruct (IH He) as [IH1 IH2].
      replace (Z.to_nat (findIndex x arr + 1)) with (S (Z.to_nat (findIndex x arr)))
        by lia.
      split; [exact IH1|].
      intros [|j] Hj; simpl; [congruence | apply IH2; lia].
Qed.

(** [findIndex] is [-1] exactly when the value does not occur; otherwise it
    is the position of the first occurrence, inside the array. *)
Theorem findIndex_first (x : string) (arr : list (option string)) :
  (findIndex x arr = (-1)%Z ↔ Some x ∉ arr)
  ∧ (findIndex x arr ≠ (-1)%Z →
     (0 ≤ findIndex x arr < Z.of_nat (length arr))%Z
     ∧ arr !! Z.to_nat (findIndex x arr) = Some (Some x)
     ∧ ∀ j, (j < Z.to_nat (findIndex x arr))%nat → arr !! j ≠ Some (Some x)).
Proof.
  split; [apply findIndex_none|].
  intros Hne. pose proof (findIndex_ge x arr). pose proof (findIndex_lt x arr).
  split; [lia|]. by apply findIndex_found.
Qed.

Lemma array_set_lookup (arr : list (option string)) (i : Z) (v : string) (j : nat) :
  array_set arr i v !! j =
    if decide (j = Z.to_nat i) then Some (Some v)
    else if decide (j < length arr)%nat then arr !! j
    else if decide (j < Z.to_nat i)%nat then Some None
    else None.
Proof.
  unfold array_set. case_bool_decide as Hin.
  - destruct (decide (j = Z.to_nat i)) as [-> | Hj].
    + by apply list_lookup_insert_eq.
    + rewrite list_lookup_insert_ne by done.
      destruct (decide (j < length arr)%nat); [reflexivity|].
      rewrite lookup_ge_None_2 by lia.
      destruct (decide (j < Z.to_nat i)%nat); [lia | reflexivity].
  - destruct (decide (j = Z.to_nat i)) as [-> | Hj].
    + rewrite lookup_app_r by lia.
      rewrite lookup_app_r by (rewrite length_replicate; lia).
      rewrite length_replicate.
      replace (Z.to_nat i - length arr - (Z.to_nat i - length arr))%nat with 0%nat by lia.
      reflexivity.
    + destruct (decide (j < length arr)%nat).
      * by rewrite lookup_app_l.
      * rewrite lookup_app_r by lia.
        destruct (decide (j < Z.to_nat i)%nat).
        -- rewrite lookup_app_l by (rewrite length_replicate; lia).
           apply lookup_replicate_2. lia.
        -- rewrite lookup_app_r by (rewrite length_replicate; lia).
           rewrite length_replicate. apply lookup_ge_None_2. simpl. lia.
Qed.

Lemma array_set_length (arr : list (option string)) (i : Z) (v : string) :
  length (array_set arr i v) = (length arr `max` (Z.to_nat i + 1))%nat.
Proof.
  unfold array_set. case_bool_decide.
  - rewrite length_insert. lia.
  - rewrite !length_app, length_replicate. simpl. lia.
Qed.

(** Writing an array element: the element can be read back; inside the old
    array nothing else changes; a write past the end makes the array just
    long enough and leaves holes in between. *)
Theorem array_set_spec (arr : list (option string)) (i : Z) (v : string) :
  (0 ≤ i)%Z →
  array_set arr i v !! Z.to_nat i = Some (Some v)
  ∧ length (array_set arr i v) = (length arr `max` (Z.to_nat i + 1))%nat
  ∧ (∀ j, j ≠ Z.to_nat i → (j < length arr)%nat → array_set arr i v !! j = arr !! j)
  ∧ (∀ j, (length arr ≤ j < Z.to_nat i)%nat → array_set arr i v !! j = Some None).
Proof.
  intros _. split; [|split; [apply array_set_length|split]].
  - rewrite array_set_lookup. by rewrite decide_True.
  - intros j Hj Hlt. rewrite array_set_lookup.
    rewrite decide_False by done. by rewrite decide_True.
  - intros j [Hge Hlt]. rewrite array_set_lookup.
    rewrite decide_False by lia. rewrite decide_False by lia. by rewrite decide_True.
Qed.
End ArrayFacts.

Lemma array_set_spec_past_end :
  Handler.array_set [Some "node"] 3 "<TRUST TOKEN>" !! Z.to_nat 3 = Some (Some "<TRUST TOKEN>")
  ∧ length (Handler.array_set [Some "node"] 3 "<TRUST TOKEN>")
    = (length [Some "node"] `max` (Z.to_nat 3 + 1))%nat
  ∧ (∀ j, j ≠ Z.to_nat 3 → (j < length [Some "node"])%nat →
       Handler.array_set [Some "node"] 3 "<TRUST TOKEN>" !! j = [Some "node"] !! j)
  ∧ (∀ j, (length [Some "node"] ≤ j < Z.to_nat 3)%nat →
       Handler.array_set [Some "node"] 3 "<TRUST TOKEN>" !! j = Some None).
Proof.
  apply (array_set_spec [Some "node"] 3 "<TRUST TOKEN>"). lia.
Defined.

(** ** Scrubbing: the environment and the arguments *)

Section ScrubFacts.
Import Handler Scrub.

Lemma clean_entry_env_falsy (p : Process) (entry : ConfidentialEntry) (k : string) :
  env_truthy (env p !! k) = false →
  env (clean_entry p entry) !! k = env p !! k.
Proof.
  intros Hk. rewrite clean_entry_env.
  destruct (env_truthy (env p !! c_env entry)) eqn:Ht; [|reflexivity].
  apply lookup_insert_ne. intros Heq. subst k. congruence.
Qed.

Lemma clean_entry_env_dom (p : Process) (entry : ConfidentialEntry) (k : string) :
  is_Some (env (clean_entry p entry) !! k) ↔ is_Some (env p !! k).
Proof.
  rewrite clean_entry_env.
  destruct (env_truthy (env p !! c_env entry)) eqn:Ht; [|reflexivity].
  destruct (decide (k = c_env entry)) as [-> | Hk].
  - rewrite lookup_insert_eq.
    destruct (env p !! c_env entry) eqn:Hl; [|discriminate Ht].
    split; eauto.
  - by rewrite lookup_insert_ne.
Qed.

(** [cleanEnv] neither adds nor removes an environment variable; it leaves
    alone every variable that is not one of the three credential variables,
    and every variable that is unset or empty. *)
Theorem cleanEnv_env_frame (p : Process) (k : string) :
  (is_Some (env (cleanEnv p) !! k) ↔ is_Some (env p !! k))
  ∧ ((∀ e, e ∈ confidentialData → k ≠ c_env e) →
     env (cleanEnv p) !! k = env p !! k)
  ∧ (env_truthy (env p !! k) = false → env (cleanEnv p) !! k = env p !! k).
Proof.
  unfold cleanEnv. generalize confidentialData as entries. intros entries.
  revert p. induction entries as [|e entries IH]; intros p; simpl.
  - repeat split; done.
  - destruct (IH (clean_entry p e)) as (IH1 & IH2 & IH3). repeat split.
    + intros H. apply clean_entry_env_dom with (entry := e). by apply IH1.
    + intros H. apply IH1. by apply clean_entry_env_dom.
    + intros Hk. rewrite IH2.
      * apply clean_entry_env_other. apply Hk. apply elem_of_cons. by left.
      * intros e' He'. apply Hk. apply elem_of_cons. by right.
    + intros Hk. rewrite IH3; rewrite clean_entry_env_falsy; done.
Qed.

Lemma clean_cli_argv_noop (entry : ConfidentialEntry) (p : Process) (flag : string) :
  Some flag ∉ argv p → Some flag ∉ execArgv p →
  argv (clean_cli entry p flag) = argv p.
Proof.
  intros Ha He. unfold clean_cli.
  apply findIndex_none in Ha. apply findIndex_none in He.
  rewrite Ha. simpl. rewrite He. reflexivity.
Qed.

Lemma clean_flags_argv_noop (entry : ConfidentialEntry) (flags : list string)
    (p : Process) :
  (∀ f, f ∈ flags → (Some f ∉ argv p) ∧ (Some f ∉ execArgv p)) →
  argv (foldl (clean_cli entry) p flags) = argv p.
Proof.
  revert p. induction flags as [|f flags IH]; intros p Hno; simpl; [reflexivity|].
  destruct (Hno f) as [Ha He]; [apply elem_of_cons; by left|].
  rewrite IH.
  - by apply clean_cli_argv_noop.
  - intros f' Hf'. rewrite clean_cli_argv_noop, clean_cli_execArgv by done.
    apply Hno. apply elem_of_cons. by right.
Qed.

Lemma clean_entry_argv_noop (p : Process) (entry : ConfidentialEntry) :
  (∀ f, f ∈ cli entry → (Some f ∉ argv p) ∧ (Some f ∉ execArgv p)) →
  argv (clean_entry p entry) = argv p.
Proof.
  intros Hno. unfold clean_entry.
  destruct (env_truthy (env p !! c_env entry)); by rewrite clean_flags_argv_noop.
Qed.

(** When no spelling of a credential flag occurs in [process.argv] or in
    [process.execArgv], [cleanEnv] leaves the argument vector as it is. *)
Theorem cleanEnv_argv_noop (p : Process) :
  (∀ f, credential_flag f → (Some f ∉ argv p) ∧ (Some f ∉ execArgv p)) →
  argv (cleanEnv p) = argv p.
Proof.
  unfold cleanEnv, credential_flag. generalize confidentialData as entries.
  intros entries. revert p.
  induction entries as [|e entries IH]; intros p Hno; simpl; [reflexivity|].
  assert (He : argv (clean_entry p e) = argv p).
  { apply clean_entry_argv_noop. intros f Hf. apply Hno.
    exists e. split; [apply elem_of_cons; by left | done]. }
  rewrite IH; [exact He|].
  intros f (e' & He' & Hf). rewrite He, clean_entry_execArgv.
  apply Hno. exists e'. split; [apply elem_of_cons; by right | done].
Qed.
End ScrubFacts.

Section ScrubArgv.
Import Handler Scrub.

Lemma flag_cases (f : string) :
  credential_flag f →
  f = "-u" ∨ f = "--username" ∨ f = "-p" ∨ f = "--password"
  ∨ f = "-T" ∨ f = "--trust-token".
Proof.
  intros (e & He & Hf). unfold confidentialData in He.
  apply elem_of_cons in He as [-> | He];
    [|apply elem_of_cons in He as [-> | He];
      [|apply elem_of_cons in He as [-> | He]; [|by apply elem_of_nil in He]]];
    cbn [cli] in Hf;
    (apply elem_of_cons in Hf as [-> | Hf];
     [|apply elem_of_cons in Hf as [-> | Hf]; [|by apply elem_of_nil in Hf]]);
    tauto.
Qed.



Lemma overwritten_refl (a : list (option string)) : overwritten a a.
Proof. split; [lia | intros j; by left]. Qed.

Lemma array_set_overwritten (a s : list (option string)) (k : Z) (v : string) :
  placeholder v → overwritten a s → overwritten a (array_set s k v).
Proof.
  intros Hv [Hlen Hslots]. split.
  - rewrite array_set_length. lia.
  - intros j. rewrite array_set_lookup.
    destruct (decide (j = Z.to_nat k)); [right; left; by exists v|].
    destruct (decide (j < length s)%nat); [apply Hslots|].
    destruct (decide (j < Z.to_nat k)%nat).
    + right; right. split; [lia | reflexivity].
    + left. symmetry. apply lookup_ge_None_2. lia.
Qed.


Lemma entry_placeholder (e : ConfidentialEntry) :
  e ∈ confidentialData → placeholder (replacement e).
Proof. intros He. by exists e. Qed.

Lemma clean_cli_overwritten (a : list (option string)) (e : ConfidentialEntry)
    (p : Process) (f : string) :
  e ∈ confidentialData → overwritten a (argv p) →
  overwritten a (argv (clean_cli e p f)).
Proof.
  intros He Ho. apply entry_placeholder in He. unfold clean_cli.
  repeat (match goal with |- context [if ?b then _ else _] => destruct b end; simpl);
    repeat apply array_set_overwritten; done.
Qed.




Lemma clean_flags_overwritten (a : list (option string)) (e : ConfidentialEntry)
    (flags : list string) (p : Process) :
  e ∈ confidentialData → overwritten a (argv p) →
  overwritten a (argv (foldl (clean_cli e) p flags)).
Proof.
  intros He. revert p. induction flags as [|g flags IH]; intros p Ho; simpl; [done|].
  apply IH. by apply clean_cli_overwritten.
Qed.



Lemma clean_entry_argv (p : Process) (e : ConfidentialEntry) :
  ∃ p', argv p' = argv p ∧ clean_entry p e = foldl (clean_cli e) p' (cli e).
Proof.
  unfold clean_entry. destruct (env_truthy (env p !! c_env e)).
  - exists (set_env p (<[c_env e := replacement e]> (env p))). split; reflexivity.
  - exists p. split; reflexivity.
Qed.

Lemma clean_entries_overwritten (a : list (option string))
    (entries : list ConfidentialEntry) (p : Process) :
  (∀ e, e ∈ entries → e ∈ confidentialData) →
  overwritten a (argv p) →
  overwritten a (argv (foldl clean_entry p entries)).
Proof.
  revert p. induction entries as [|e entries IH]; intros p Hsub Ho; simpl; [done|].
  apply IH; [intros e' He'; apply Hsub, elem_of_cons; by right|].
  destruct (clean_entry_argv p e) as (p' & Hp' & ->).
  apply clean_flags_overwritten; [apply Hsub, elem_of_cons; by left | by rewrite Hp'].
Qed.



(** [cleanEnv] only ever writes placeholders: the argument vector does not
    get shorter, and an argument found afterwards is a placeholder or was
    at that position before. *)
Theorem cleanEnv_argv_writes (p : Process) :
  (length (argv p) ≤ length (argv (cleanEnv p)))%nat
  ∧ ∀ j v, argv (cleanEnv p) !! j = Some (Some v) →
           argv p !! j = Some (Some v) ∨ placeholder v.
Proof.
  unfold cleanEnv.
  destruct (clean_entries_overwritten (argv p) confidentialData p) as [Hlen Hslots];
    [done | apply overwritten_refl |].
  split; [exact Hlen|].
  intros j v Hj.
  destruct (Hslots j) as [Hs | [(u & Hu & Hs) | [_ Hs]]].
  - left. congruence.
  - right. congruence.
  - congruence.
Qed.

End ScrubArgv.

Lemma cleanEnv_argv_noop_sync :
  Handler.argv (Handler.cleanEnv Inputs.no_flags) = Handler.argv Inputs.no_flags.
Proof.
  apply (cleanEnv_argv_noop Inputs.no_flags).
  intros f Hf.
  destruct (flag_cases f Hf) as [-> | [-> | [-> | [-> | [-> | ->]]]]];
    (split; [|apply not_elem_of_nil]);
    repeat (apply not_elem_of_cons; split; [discriminate|]); apply not_elem_of_nil.
Defined.


Section CleanFacts.
Import App.
Variables Asset Album : Type.
Variable options : OptionValues.
Variable pid : Z.

Local Arguments releaseLibraryLock : simpl never.

(** [clean] ends as the release of the lock ends. The handlers of the
    iCloud connection are always removed, before the release; those of the
    engines that the sync app and the archive app add are removed after
    it, and so only when the release succeeded. *)
Theorem clean_follows_release (self : AppClass) (w : World Asset Album) :
  ∃ (r : Result ()) (fs : FS),
    releaseLibraryLock options pid (files w) = (r, fs)
    ∧ clean Asset Album options pid self w
      = (r, {| files := fs;
               calls := (calls w
                 ++ [CRemoveHandlers; CReleaseLibraryLock r]
                 ++ match r with
                    | Ok _ => replicate (match self with
                                         | TokenAppC => 0
                                         | SyncAppC => 1
                                         | ArchiveAppC => 2
                                         end) CRemoveHandlers
                    | Throw _ => []
                    end)%list |}).
Proof.
  destruct self;
    unfold clean, ArchiveApp_clean, SyncApp_clean, iCloudApp_clean, logged, note,
      mbind, M_bind; simpl;
    destruct (releaseLibraryLock options pid (files w)) as [[[]|e] fs]; simpl;
    eexists _, fs; (split; [reflexivity|]);
    rewrite <- ?app_assoc; reflexivity.
Qed.
End CleanFacts.

Lemma cleanEnv_env_password :
  Handler.env (Handler.cleanEnv Inputs.env_password) !! "APPLE_ID_PWD"
  = Some "<APPLE ID PASSWORD>".
Proof.
  apply (cleanEnv_env Inputs.env_password
           {| Handler.c_env := "APPLE_ID_PWD"; Handler.cli := ["-p"; "--password"];
              Handler.replacement := "<APPLE ID PASSWORD>" |}).
  - apply elem_of_cons. right. apply elem_of_cons. left. reflexivity.
  - vm_compute. reflexivity.
Defined.
